(** * electrumsv/wallet_database/storage_migration.py

    A shallow embedding of the backwards-compatible storage-migration write
    layer of ElectrumSV, and the properties of it that its specification
    states.

    Conventions.
    - A Python [int] is unbounded, so it is a [Z]; the [IntFlag] operators
      [&], [|] and [~] are [Z.land], [Z.lor] and [Z.lnot].
    - A Python [str] is a list of Unicode code points ([N]); [bytes] is a
      list of [Byte.byte].
    - A raised exception is the left summand of [result].
    - Functions that read the clock or post work to the database context are
      written in a state-and-error monad over [World]. *)

From Stdlib Require Import ZArith NArith List String Ascii Bool Lia Arith.
From Stdlib.Strings Require Byte.
From Stdlib Require DecimalPos.
Import ListNotations.

Local Open Scope Z_scope.
#[local] Set Warnings "-register-all".

(* ================================================================== *)
(** ** Python values *)
(* ================================================================== *)

(** [str]: a sequence of code points. *)
Definition pystr := list N.

(** A [str] literal written with Rocq's ASCII string syntax. *)
Definition lit (s : string) : pystr := map N_of_ascii (list_ascii_of_string s).

Definition pybytes := list Byte.byte.

(** The Python objects that reach this module as dynamically typed values
    (a transaction hash, a wallet-data key, a wallet-data value).  Floats are
    not part of the embedding. *)
Inductive PyVal : Type :=
| PyNone
| PyBool (b : bool)
| PyInt (n : Z)
| PyStr (s : pystr)
| PyBytes (b : pybytes)
| PyList (xs : list PyVal)
| PyTuple (xs : list PyVal)
| PyDict (kvs : list (PyVal * PyVal)).

(** The exceptions the module and the standard library raise on the paths
    modelled here. *)
Inductive PyExc : Type :=
| AssertionError (msg : string)
| TypeError (msg : string)
| JSONDecodeError (msg : string)
| Unmodelled (what : string)
| IntegrityError (msg : string)
| InterfaceError (msg : string)
| ProgrammingError (msg : string).

Definition result (A : Type) : Type := (PyExc + A)%type.
Definition Ok {A} (a : A) : result A := inr a.
Definition Raise {A} (e : PyExc) : result A := inl e.

Definition is_raise {A} (r : result A) : bool :=
  match r with inl _ => true | inr _ => false end.

Definition pystr_eqb (a b : pystr) : bool :=
  if list_eq_dec N.eq_dec a b then true else false.

Definition pybytes_eqb (a b : pybytes) : bool :=
  if list_eq_dec Byte.byte_eq_dec a b then true else false.

(** Python's [==] on the objects above.  [bool] is a subclass of [int], a
    [list] never equals a [tuple], and two [dict]s are equal when they hold
    the same keys with equal values, in any order. *)
Fixpoint py_eq (a b : PyVal) : bool :=
  match a, b with
  | PyNone, PyNone => true
  | PyBool x, PyBool y => Bool.eqb x y
  | PyBool x, PyInt n => (if x then 1 else 0) =? n
  | PyInt n, PyBool x => n =? (if x then 1 else 0)
  | PyInt m, PyInt n => m =? n
  | PyStr s, PyStr t => pystr_eqb s t
  | PyBytes s, PyBytes t => pybytes_eqb s t
  | PyList xs, PyList ys =>
      (fix go (xs ys : list PyVal) {struct xs} : bool :=
         match xs, ys with
         | [], [] => true
         | x :: xs', y :: ys' => py_eq x y && go xs' ys'
         | _, _ => false
         end) xs ys
  | PyTuple xs, PyTuple ys =>
      (fix go (xs ys : list PyVal) {struct xs} : bool :=
         match xs, ys with
         | [], [] => true
         | x :: xs', y :: ys' => py_eq x y && go xs' ys'
         | _, _ => false
         end) xs ys
  | PyDict d1, PyDict d2 =>
      (List.length d1 =? List.length d2)%nat &&
      (fix go (d : list (PyVal * PyVal)) {struct d} : bool :=
         match d with
         | [] => true
         | (k, v) :: r =>
             (fix find (e : list (PyVal * PyVal)) {struct e} : bool :=
                match e with
                | [] => false
                | (k', v') :: r' => if py_eq k k' then py_eq v v' else find r'
                end) d2 && go r
         end) d1
  | _, _ => false
  end.

(* ================================================================== *)
(** ** Flag enumerations *)
(* ================================================================== *)

Module TransactionOutputFlag1.
Definition NONE : Z := 0.
Definition IS_ALLOCATED : Z := Z.shiftl 1 1.
Definition IS_SPENT : Z := Z.shiftl 1 2.
Definition IS_FROZEN : Z := Z.shiftl 1 3.
Definition IS_COINBASE : Z := Z.shiftl 1 4.
Definition USER_SET_FROZEN : Z := Z.shiftl 1 8.
Definition FROZEN_MASK : Z := Z.lor IS_FROZEN USER_SET_FROZEN.
End TransactionOutputFlag1.

Module TxFlags1.
Definition HasFee : Z := Z.shiftl 1 4.
Definition HasHeight : Z := Z.shiftl 1 5.
Definition HasPosition : Z := Z.shiftl 1 6.
Definition HasByteData : Z := Z.shiftl 1 12.
Definition STATE_CLEARED : Z := Z.shiftl 1 20.
Definition STATE_SETTLED : Z := Z.shiftl 1 21.
Definition METADATA_FIELD_MASK : Z := Z.lor (Z.lor HasFee HasHeight) HasPosition.
End TxFlags1.

(* ================================================================== *)
(** ** Row types *)
(* ================================================================== *)

Definition opt_int (o : option Z) : PyVal :=
  match o with Some n => PyInt n | None => PyNone end.
Definition opt_str (o : option pystr) : PyVal :=
  match o with Some s => PyStr s | None => PyNone end.
Definition opt_bytes (o : option pybytes) : PyVal :=
  match o with Some s => PyBytes s | None => PyNone end.

(** [ScriptType], [DerivationType], [KeyInstanceFlag] and [PaymentFlag] come
    from [..constants]; they are integer enumerations and are carried as
    their integer value. *)
Record AccountRow1 := {
  account_id : Z;
  default_masterkey_id : option Z;
  default_script_type : Z;
  account_name : pystr }.

Record KeyInstanceRow1 := {
  ki_keyinstance_id : Z;
  ki_account_id : Z;
  ki_masterkey_id : option Z;
  ki_derivation_type : Z;
  ki_derivation_data : pybytes;
  ki_script_type : Z;
  ki_flags : Z;
  ki_description : option pystr }.

Record MasterKeyRow1 := {
  masterkey_id : Z;
  parent_masterkey_id : option Z;
  mk_derivation_type : Z;
  mk_derivation_data : pybytes }.

Record PaymentRequestRow1 := {
  paymentrequest_id : Z;
  pr_keyinstance_id : Z;
  pr_state : Z;
  pr_value : option Z;
  pr_expiration : option Z;
  pr_description : option pystr;
  pr_date_created : Z }.

Record TransactionOutputRow1 := {
  txo_tx_hash : pybytes;
  txo_tx_index : Z;
  txo_value : Z;
  txo_keyinstance_id : option Z;
  txo_flags : Z }.

Record TxData1 := {
  height : option Z;
  position : option Z;
  fee : option Z;
  date_added : option Z;
  date_updated : option Z }.

(** [tx_hash] is checked with [type(tx_hash) is bytes] at run time, so it is
    carried as a dynamically typed object. *)
Record TransactionRow1 := {
  tx_hash : PyVal;
  tx_data : TxData1;
  tx_bytes : option pybytes;
  flags : Z;
  description : option pystr;
  version : option Z;
  locktime : option Z }.

(** [key] is checked with [type(entry.key) is str] at run time; [value] is
    [Any]. *)
Record WalletDataRow1 := {
  key : PyVal;
  value : PyVal }.

(** The named tuples seen as plain tuples ([*t]). *)
Definition AccountRow1_tuple (t : AccountRow1) : list PyVal :=
  [PyInt (account_id t); opt_int (default_masterkey_id t);
   PyInt (default_script_type t); PyStr (account_name t)].

Definition KeyInstanceRow1_tuple (t : KeyInstanceRow1) : list PyVal :=
  [PyInt (ki_keyinstance_id t); PyInt (ki_account_id t);
   opt_int (ki_masterkey_id t); PyInt (ki_derivation_type t);
   PyBytes (ki_derivation_data t); PyInt (ki_script_type t);
   PyInt (ki_flags t); opt_str (ki_description t)].

Definition MasterKeyRow1_tuple (t : MasterKeyRow1) : list PyVal :=
  [PyInt (masterkey_id t); opt_int (parent_masterkey_id t);
   PyInt (mk_derivation_type t); PyBytes (mk_derivation_data t)].

Definition PaymentRequestRow1_tuple (t : PaymentRequestRow1) : list PyVal :=
  [PyInt (paymentrequest_id t); PyInt (pr_keyinstance_id t);
   PyInt (pr_state t); opt_int (pr_value t); opt_int (pr_expiration t);
   opt_str (pr_description t); PyInt (pr_date_created t)].

Definition TransactionOutputRow1_tuple (t : TransactionOutputRow1) : list PyVal :=
  [PyBytes (txo_tx_hash t); PyInt (txo_tx_index t); PyInt (txo_value t);
   opt_int (txo_keyinstance_id t); PyInt (txo_flags t)].

(** *** [TxData1.__eq__] *)

(** What a rich comparison method hands back: a truth value, or the
    [NotImplemented] singleton. *)
Inductive EqResult := EqBool (b : bool) | NotImplemented.

(** The right operand of [==] is any object; only the case split
    [isinstance(other, TxData1)] matters. *)
Inductive PyObject :=
| ObjTxData1 (d : TxData1)
| ObjValue (v : PyVal).

Definition opt_int_eqb (a b : option Z) : bool :=
  match a, b with
  | Some x, Some y => x =? y
  | None, None => true
  | _, _ => false
  end.

Definition TxData1_eq (self : TxData1) (other : PyObject) : EqResult :=
  match other with
  | ObjTxData1 o =>
      EqBool (opt_int_eqb (height self) (height o)
              && opt_int_eqb (position self) (position o)
              && opt_int_eqb (fee self) (fee o))
  | ObjValue _ => NotImplemented
  end.

(* ================================================================== *)
(** ** The [json] codec of the standard library

    [json.dumps(obj)] and [json.loads(s)] with their default arguments:
    [ensure_ascii=True], separators [", "] and [": "], no indentation, strict
    string scanning.  Floats (and the constants [NaN], [Infinity]) are
    outside the embedding; the decoder answers [Unmodelled] when it meets
    one.  The interpreter's recursion limit is not modelled. *)
(* ================================================================== *)

Local Open Scope N_scope.

Module Ch.
Definition TAB : N := 9.
Definition LF : N := 10.
Definition FF : N := 12.
Definition CR : N := 13.
Definition BS : N := 8.
Definition SPACE : N := 32.
Definition QUOTE : N := 34.
Definition COMMA : N := 44.
Definition MINUS : N := 45.
Definition PLUS : N := 43.
Definition DOT : N := 46.
Definition SLASH : N := 47.
Definition ZERO : N := 48.
Definition NINE : N := 57.
Definition COLON : N := 58.
Definition LBRACKET : N := 91.
Definition BACKSLASH : N := 92.
Definition RBRACKET : N := 93.
Definition LBRACE : N := 123.
Definition RBRACE : N := 125.
Definition TILDE : N := 126.
Definition b : N := 98.
Definition e : N := 101.
Definition f : N := 102.
Definition n : N := 110.
Definition r : N := 114.
Definition t : N := 116.
Definition u : N := 117.
Definition E : N := 69.
Definition I : N := 73.
Definition capN : N := 78.
End Ch.

(** *** Encoding *)

(** One lower-case hexadecimal digit, as ['{:x}'.format] writes it. *)
Definition hex_digit (d : N) : N := if d <? 10 then Ch.ZERO + d else 87 + d.

(** ['{0:04x}'.format(n)] for [n < 0x10000]. *)
Definition hex4 (n : N) : pystr :=
  [hex_digit (N.shiftr n 12 mod 16); hex_digit (N.shiftr n 8 mod 16);
   hex_digit (N.shiftr n 4 mod 16); hex_digit (n mod 16)].

Definition escape_u (n : N) : pystr := Ch.BACKSLASH :: Ch.u :: hex4 n.

(** [replace(match)] of [py_encode_basestring_ascii]: the replacement text
    of one code point.  Only printable ASCII other than the quote and the
    backslash stands for itself. *)
Definition encode_char (c : N) : pystr :=
  if c =? Ch.QUOTE then [Ch.BACKSLASH; Ch.QUOTE]
  else if c =? Ch.BACKSLASH then [Ch.BACKSLASH; Ch.BACKSLASH]
  else if c =? Ch.LF then [Ch.BACKSLASH; Ch.n]
  else if c =? Ch.CR then [Ch.BACKSLASH; Ch.r]
  else if c =? Ch.TAB then [Ch.BACKSLASH; Ch.t]
  else if c =? Ch.BS then [Ch.BACKSLASH; Ch.b]
  else if c =? Ch.FF then [Ch.BACKSLASH; Ch.f]
  else if (Ch.SPACE <=? c) && (c <=? Ch.TILDE) then [c]
  else if c <? 0x10000 then escape_u c
  else
    let n := c - 0x10000 in
    let s1 := N.lor 0xd800 (N.land (N.shiftr n 10) 0x3ff) in
    let s2 := N.lor 0xdc00 (N.land n 0x3ff) in
    escape_u s1 ++ escape_u s2.

Definition encode_basestring_ascii (s : pystr) : pystr :=
  Ch.QUOTE :: flat_map encode_char s ++ [Ch.QUOTE].

(** The decimal digits of a [Decimal.uint], most significant first. *)
Fixpoint uint_chars (d : Decimal.uint) : pystr :=
  match d with
  | Decimal.Nil => []
  | Decimal.D0 d => 48 :: uint_chars d
  | Decimal.D1 d => 49 :: uint_chars d
  | Decimal.D2 d => 50 :: uint_chars d
  | Decimal.D3 d => 51 :: uint_chars d
  | Decimal.D4 d => 52 :: uint_chars d
  | Decimal.D5 d => 53 :: uint_chars d
  | Decimal.D6 d => 54 :: uint_chars d
  | Decimal.D7 d => 55 :: uint_chars d
  | Decimal.D8 d => 56 :: uint_chars d
  | Decimal.D9 d => 57 :: uint_chars d
  end.

(** [int.__repr__]. *)
Definition int_repr (z : Z) : pystr :=
  match z with
  | Z0 => [Ch.ZERO]
  | Zpos p => uint_chars (Pos.to_uint p)
  | Zneg p => Ch.MINUS :: uint_chars (Pos.to_uint p)
  end.

(** The text a [dict] key is written as ([_iterencode_dict]): a [str] as it
    is, [True], [False], [None] and integers by their JSON spelling, anything
    else is a [TypeError]. *)
Definition encode_key (k : PyVal) : result pystr :=
  match k with
  | PyStr s => Ok s
  | PyBool true => Ok (lit "true")
  | PyBool false => Ok (lit "false")
  | PyNone => Ok (lit "null")
  | PyInt n => Ok (int_repr n)
  | _ => Raise (TypeError "keys must be str, int, float, bool or None")
  end.

Definition sep (first : bool) : pystr := if first then [] else lit ", ".

(** The elements of a [list] or [tuple], each written by [enc], with the item
    separator between them. *)
Definition encode_items (enc : PyVal -> result pystr)
  : bool -> list PyVal -> result pystr :=
  fix items (first : bool) (xs : list PyVal) {struct xs} : result pystr :=
    match xs with
    | [] => Ok []
    | x :: r =>
        match enc x with
        | inl e => Raise e
        | inr s =>
            match items false r with
            | inl e => Raise e
            | inr t => Ok (sep first ++ s ++ t)
            end
        end
    end.

(** The items of a [dict]: the key as a JSON string, the key separator, the
    value written by [enc]. *)
Definition encode_pairs (enc : PyVal -> result pystr)
  : bool -> list (PyVal * PyVal) -> result pystr :=
  fix pairs (first : bool) (kvs : list (PyVal * PyVal)) {struct kvs}
    : result pystr :=
    match kvs with
    | [] => Ok []
    | kv :: r =>
        match encode_key (fst kv) with
        | inl e => Raise e
        | inr ks =>
            match enc (snd kv) with
            | inl e => Raise e
            | inr s =>
                match pairs false r with
                | inl e => Raise e
                | inr t =>
                    Ok (sep first ++ encode_basestring_ascii ks
                        ++ lit ": " ++ s ++ t)
                end
            end
        end
    end.

(** [JSONEncoder().encode(o)]. A [tuple] is written as a [list] is. *)
Fixpoint json_encode (o : PyVal) : result pystr :=
  match o with
  | PyStr s => Ok (encode_basestring_ascii s)
  | PyNone => Ok (lit "null")
  | PyBool true => Ok (lit "true")
  | PyBool false => Ok (lit "false")
  | PyInt n => Ok (int_repr n)
  | PyList xs | PyTuple xs =>
      match encode_items json_encode true xs with
      | inl e => Raise e
      | inr s => Ok (Ch.LBRACKET :: s ++ [Ch.RBRACKET])
      end
  | PyDict kvs =>
      match encode_pairs json_encode true kvs with
      | inl e => Raise e
      | inr s => Ok (Ch.LBRACE :: s ++ [Ch.RBRACE])
      end
  | PyBytes _ => Raise (TypeError "Object of type bytes is not JSON serializable")
  end.

Definition json_dumps (obj : PyVal) : result pystr := json_encode obj.

(** *** Decoding *)

Definition is_ws (c : N) : bool :=
  (c =? Ch.SPACE) || (c =? Ch.TAB) || (c =? Ch.LF) || (c =? Ch.CR).

(** [WHITESPACE.match(s, idx).end()]. *)
Fixpoint skip_ws (s : pystr) : pystr :=
  match s with
  | c :: r => if is_ws c then skip_ws r else s
  | [] => []
  end.

Definition is_digit (c : N) : bool := (Ch.ZERO <=? c) && (c <=? Ch.NINE).

(** The value of one hexadecimal digit, either case. *)
Definition hex_val (c : N) : option N :=
  if is_digit c then Some (c - Ch.ZERO)
  else if (97 <=? c) && (c <=? 102) then Some (c - 87)
  else if (65 <=? c) && (c <=? 70) then Some (c - 55)
  else None.

(** [_decode_uXXXX]: four hexadecimal digits. *)
Definition decode_uXXXX (a b c d : N) : option N :=
  match hex_val a, hex_val b, hex_val c, hex_val d with
  | Some x, Some y, Some z, Some w => Some (((x * 16 + y) * 16 + z) * 16 + w)
  | _, _, _, _ => None
  end.

(** The [BACKSLASH] table of [json.decoder]. *)
Definition backslash (esc : N) : option N :=
  if esc =? Ch.QUOTE then Some Ch.QUOTE
  else if esc =? Ch.BACKSLASH then Some Ch.BACKSLASH
  else if esc =? Ch.SLASH then Some Ch.SLASH
  else if esc =? Ch.b then Some Ch.BS
  else if esc =? Ch.f then Some Ch.FF
  else if esc =? Ch.n then Some Ch.LF
  else if esc =? Ch.r then Some Ch.CR
  else if esc =? Ch.t then Some Ch.TAB
  else None.

Definition cons_char (c : N) (r : result (pystr * pystr)) : result (pystr * pystr) :=
  match r with
  | inl e => Raise e
  | inr (s, rest) => Ok (c :: s, rest)
  end.

(** [scanstring(s, end, strict=True)], entered just after the opening
    quote: the decoded string and the text after the closing quote.  A
    [\uXXXX] escape of a high surrogate followed by one of a low surrogate is
    read as a single code point. *)
Fixpoint scanstring (s : pystr) : result (pystr * pystr) :=
  match s with
  | [] => Raise (JSONDecodeError "Unterminated string starting at")
  | c :: r =>
      if c =? Ch.QUOTE then Ok ([], r)
      else if c =? Ch.BACKSLASH then
        match r with
        | [] => Raise (JSONDecodeError "Unterminated string starting at")
        | esc :: r1 =>
            if esc =? Ch.u then
              match r1 with
              | x1 :: x2 :: x3 :: x4 :: r2 =>
                  match decode_uXXXX x1 x2 x3 x4 with
                  | None => Raise (JSONDecodeError "Invalid \uXXXX escape")
                  | Some uni =>
                      if (0xd800 <=? uni) && (uni <=? 0xdbff) then
                        match r2 with
                        | b2 :: u2 :: y1 :: y2 :: y3 :: y4 :: r3 =>
                            if (b2 =? Ch.BACKSLASH) && (u2 =? Ch.u) then
                              match decode_uXXXX y1 y2 y3 y4 with
                              | None =>
                                  Raise (JSONDecodeError "Invalid \uXXXX escape")
                              | Some uni2 =>
                                  if (0xdc00 <=? uni2) && (uni2 <=? 0xdfff) then
                                    cons_char
                                      (0x10000 +
                                       N.lor (N.shiftl (uni - 0xd800) 10)
                                             (uni2 - 0xdc00))
                                      (scanstring r3)
                                  else cons_char uni (scanstring r2)
                              end
                            else cons_char uni (scanstring r2)
                        | b2 :: u2 :: _ =>
                            if (b2 =? Ch.BACKSLASH) && (u2 =? Ch.u) then
                              Raise (JSONDecodeError "Invalid \uXXXX escape")
                            else cons_char uni (scanstring r2)
                        | _ => cons_char uni (scanstring r2)
                        end
                      else cons_char uni (scanstring r2)
                  end
              | _ => Raise (JSONDecodeError "Invalid \uXXXX escape")
              end
            else
              match backslash esc with
              | Some ch => cons_char ch (scanstring r1)
              | None => Raise (JSONDecodeError "Invalid \escape")
              end
        end
      else if c <? Ch.SPACE then
        Raise (JSONDecodeError "Invalid control character at")
      else cons_char c (scanstring r)
  end.

(** The longest prefix of decimal digits, as a
    [Decimal.uint], and the text after it. *)
Fixpoint scan_digits (s : pystr) : Decimal.uint * pystr :=
  match s with
  | [] => (Decimal.Nil, [])
  | c :: r =>
      let '(d, rest) := scan_digits r in
      if c =? 48 then (Decimal.D0 d, rest)
      else if c =? 49 then (Decimal.D1 d, rest)
      else if c =? 50 then (Decimal.D2 d, rest)
      else if c =? 51 then (Decimal.D3 d, rest)
      else if c =? 52 then (Decimal.D4 d, rest)
      else if c =? 53 then (Decimal.D5 d, rest)
      else if c =? 54 then (Decimal.D6 d, rest)
      else if c =? 55 then (Decimal.D7 d, rest)
      else if c =? 56 then (Decimal.D8 d, rest)
      else if c =? 57 then (Decimal.D9 d, rest)
      else (Decimal.Nil, s)
  end.

(** The integer part of [NUMBER_RE]: a lone zero, or a non-zero digit
    followed by digits. *)
Definition scan_integer (s : pystr) : option (N * pystr) :=
  match s with
  | [] => None
  | c :: r =>
      if c =? Ch.ZERO then Some (0, r)
      else if is_digit c then
        let '(d, rest) := scan_digits s in Some (N.of_uint d, rest)
      else None
  end.

(** Whether a fraction (a dot and a digit) or an exponent (e or E, an
    optional sign, a digit) follows the integer part, which makes the
    literal a float. *)
Definition float_follows (s : pystr) : bool :=
  match s with
  | c :: d :: r =>
      if c =? Ch.DOT then is_digit d
      else if (c =? Ch.e) || (c =? Ch.E) then
        if is_digit d then true
        else if (d =? Ch.PLUS) || (d =? Ch.MINUS) then
          match r with x :: _ => is_digit x | [] => false end
        else false
      else false
  | _ => false
  end.

Definition starts_with (p s : pystr) : bool :=
  if list_eq_dec N.eq_dec (firstn (List.length p) s) p then true else false.

(** [match_number] followed by [int(integer)]; when no number matches, the
    float constants are tried before giving up. *)
Definition scan_number (s : pystr) : result (PyVal * pystr) :=
  let '(neg, body) :=
    match s with
    | c :: r => if c =? Ch.MINUS then (true, r) else (false, s)
    | [] => (false, s)
    end in
  match scan_integer body with
  | None =>
      if starts_with (lit "NaN") s || starts_with (lit "Infinity") s
         || starts_with (lit "-Infinity") s
      then Raise (Unmodelled "float")
      else Raise (JSONDecodeError "Expecting value")
  | Some (n, rest) =>
      if float_follows rest then Raise (Unmodelled "float")
      else Ok (PyInt (if neg then Z.opp (Z.of_N n) else Z.of_N n), rest)
  end.

(** Python's key equality for the keys the decoder produces. *)
Definition key_eqb (a b : PyVal) : bool := py_eq a b.

(** [d[k] = v] on an insertion-ordered [dict]: an existing key keeps its
    place and takes the new value. *)
Fixpoint dict_set (d : list (PyVal * PyVal)) (k v : PyVal) : list (PyVal * PyVal) :=
  match d with
  | [] => [(k, v)]
  | (k', v') :: r =>
      if key_eqb k' k then (k', v) :: r else (k', v') :: dict_set r k v
  end.

(** [dict(pairs)]. *)
Definition dict_of_pairs (pairs : list (PyVal * PyVal)) : list (PyVal * PyVal) :=
  fold_left (fun d kv => dict_set d (fst kv) (snd kv)) pairs [].

(** [scan_once], [JSONArray] and [JSONObject].  Each takes the text from the
    position it is called at and hands back the value and the text after it.
    The recursion of the three through one another is bounded by [fuel];
    [json_loads] supplies more than any text can use. *)
Fixpoint scan_once (fuel : nat) (s : pystr) {struct fuel} : result (PyVal * pystr) :=
  match fuel with
  | O => Raise (Unmodelled "fuel")
  | S fuel =>
      match s with
      | [] => Raise (JSONDecodeError "Expecting value")
      | c :: r =>
          if c =? Ch.QUOTE then
            match scanstring r with
            | inl e => Raise e
            | inr (str, rest) => Ok (PyStr str, rest)
            end
          else if c =? Ch.LBRACE then
            let s1 := skip_ws r in
            match s1 with
            | c1 :: r1 =>
                if c1 =? Ch.RBRACE then Ok (PyDict [], r1)
                else
                  match parse_pairs fuel s1 with
                  | inl e => Raise e
                  | inr (pairs, rest) => Ok (PyDict (dict_of_pairs pairs), rest)
                  end
            | [] =>
                Raise (JSONDecodeError
                         "Expecting property name enclosed in double quotes")
            end
          else if c =? Ch.LBRACKET then
            let s1 := skip_ws r in
            match s1 with
            | c1 :: r1 =>
                if c1 =? Ch.RBRACKET then Ok (PyList [], r1)
                else
                  match parse_items fuel s1 with
                  | inl e => Raise e
                  | inr (values, rest) => Ok (PyList values, rest)
                  end
            | [] => Raise (JSONDecodeError "Expecting value")
            end
          else if starts_with (lit "null") s then Ok (PyNone, skipn 4 s)
          else if starts_with (lit "true") s then Ok (PyBool true, skipn 4 s)
          else if starts_with (lit "false") s then Ok (PyBool false, skipn 5 s)
          else scan_number s
      end
  end

(** The loop of [JSONArray], entered at the first character of an element. *)
with parse_items (fuel : nat) (s : pystr) {struct fuel}
  : result (list PyVal * pystr) :=
  match fuel with
  | O => Raise (Unmodelled "fuel")
  | S fuel =>
      match scan_once fuel s with
      | inl e => Raise e
      | inr (value, s1) =>
          match skip_ws s1 with
          | c :: r =>
              if c =? Ch.RBRACKET then Ok ([value], r)
              else if c =? Ch.COMMA then
                match parse_items fuel (skip_ws r) with
                | inl e => Raise e
                | inr (values, rest) => Ok (value :: values, rest)
                end
              else Raise (JSONDecodeError "Expecting ',' delimiter")
          | [] => Raise (JSONDecodeError "Expecting ',' delimiter")
          end
      end
  end

(** The loop of [JSONObject], entered at the opening quote of a key. *)
with parse_pairs (fuel : nat) (s : pystr) {struct fuel}
  : result (list (PyVal * PyVal) * pystr) :=
  match fuel with
  | O => Raise (Unmodelled "fuel")
  | S fuel =>
      match s with
      | q :: r0 =>
          if q =? Ch.QUOTE then
            match scanstring r0 with
            | inl e => Raise e
            | inr (k, s1) =>
                match skip_ws s1 with
                | c :: r =>
                    if c =? Ch.COLON then
                      match scan_once fuel (skip_ws r) with
                      | inl e => Raise e
                      | inr (value, s2) =>
                          match skip_ws s2 with
                          | c2 :: r2 =>
                              if c2 =? Ch.RBRACE then Ok ([(PyStr k, value)], r2)
                              else if c2 =? Ch.COMMA then
                                match parse_pairs fuel (skip_ws r2) with
                                | inl e => Raise e
                                | inr (pairs, rest) =>
                                    Ok ((PyStr k, value) :: pairs, rest)
                                end
                              else Raise (JSONDecodeError "Expecting ',' delimiter")
                          | [] => Raise (JSONDecodeError "Expecting ',' delimiter")
                          end
                      end
                    else Raise (JSONDecodeError "Expecting ':' delimiter")
                | [] => Raise (JSONDecodeError "Expecting ':' delimiter")
                end
            end
          else
            Raise (JSONDecodeError
                     "Expecting property name enclosed in double quotes")
      | [] =>
          Raise (JSONDecodeError
                   "Expecting property name enclosed in double quotes")
      end
  end.

(** [json.loads(s)]: leading whitespace, one value, trailing whitespace, and
    nothing more. *)
Definition json_loads (s : pystr) : result PyVal :=
  let s0 := skip_ws s in
  match scan_once (2 * List.length s0 + 2) s0 with
  | inl e => Raise e
  | inr (obj, rest) =>
      match skip_ws rest with
      | [] => Ok obj
      | _ :: _ => Raise (JSONDecodeError "Extra data")
      end
  end.

Local Close Scope N_scope.

(* ================================================================== *)
(** ** The embedded store

    SQLite and the schema are outside this module.  The statements the module
    issues are given their SQL meaning on tables that are lists of rows, in
    insertion order. *)
(* ================================================================== *)

(** What a column holds. *)
Inductive SqlVal : Type :=
| SqlNull
| SqlInt (n : Z)
| SqlText (s : pystr)
| SqlBlob (b : pybytes).

Definition Row := list SqlVal.

(** How [sqlite3] binds a Python object to a [?].  The 64-bit range of an
    SQLite integer is not modelled. *)
Definition adapt (v : PyVal) : result SqlVal :=
  match v with
  | PyNone => Ok SqlNull
  | PyBool b => Ok (SqlInt (if b then 1 else 0))
  | PyInt n => Ok (SqlInt n)
  | PyStr s => Ok (SqlText s)
  | PyBytes b => Ok (SqlBlob b)
  | _ => Raise (InterfaceError "Error binding parameter - probably unsupported type")
  end.

Fixpoint adapt_all (vs : list PyVal) : result Row :=
  match vs with
  | [] => Ok []
  | v :: r =>
      match adapt v with
      | inl e => Raise e
      | inr x =>
          match adapt_all r with
          | inl e => Raise e
          | inr xs => Ok (x :: xs)
          end
      end
  end.

(** SQL's [=]: [NULL] equals nothing. *)
Definition sql_eqb (a b : SqlVal) : bool :=
  match a, b with
  | SqlInt m, SqlInt n => m =? n
  | SqlText s, SqlText t => pystr_eqb s t
  | SqlBlob s, SqlBlob t => pybytes_eqb s t
  | _, _ => false
  end.

Inductive Table : Type :=
| Accounts | KeyInstances | MasterKeys | PaymentRequests
| TransactionOutputs | Transactions | WalletData.

Record Database := {
  tblAccounts : list Row;
  tblKeyInstances : list Row;
  tblMasterKeys : list Row;
  tblPaymentRequests : list Row;
  tblTransactionOutputs : list Row;
  tblTransactions : list Row;
  tblWalletData : list Row }.

Definition get_table (db : Database) (t : Table) : list Row :=
  match t with
  | Accounts => tblAccounts db
  | KeyInstances => tblKeyInstances db
  | MasterKeys => tblMasterKeys db
  | PaymentRequests => tblPaymentRequests db
  | TransactionOutputs => tblTransactionOutputs db
  | Transactions => tblTransactions db
  | WalletData => tblWalletData db
  end.

Definition set_table (db : Database) (t : Table) (rows : list Row) : Database :=
  let '(Build_Database a k m p o x w) := db in
  match t with
  | Accounts => Build_Database rows k m p o x w
  | KeyInstances => Build_Database a rows m p o x w
  | MasterKeys => Build_Database a k rows p o x w
  | PaymentRequests => Build_Database a k m rows o x w
  | TransactionOutputs => Build_Database a k m p rows x w
  | Transactions => Build_Database a k m p o rows w
  | WalletData => Build_Database a k m p o x rows
  end.

Definition empty_database : Database := Build_Database [] [] [] [] [] [] [].

(** The statements of the module. *)
Inductive Query : Type :=
| INSERT_INTO (t : Table)
| UPDATE_WalletData.


(** The number of [?] of each statement. *)
Definition bindings (q : Query) : nat :=
  match q with
  | INSERT_INTO Accounts => 6
  | INSERT_INTO KeyInstances => 10
  | INSERT_INTO MasterKeys => 6
  | INSERT_INTO PaymentRequests => 8
  | INSERT_INTO TransactionOutputs => 7
  | INSERT_INTO Transactions => 11
  | INSERT_INTO WalletData => 4
  | UPDATE_WalletData => 3
  end%nat.

(** The position of the two timestamp columns in an inserted row: every
    table ends with [date_created, date_updated]. *)
Definition date_created_col (t : Table) : nat := (bindings (INSERT_INTO t) - 2)%nat.
Definition date_updated_col (t : Table) : nat := (bindings (INSERT_INTO t) - 1)%nat.

(** Modelled from the spec: the schema is not part of this module.  The
    spec gives each table its identity ([account_id], [keyinstance_id],
    [masterkey_id], [paymentrequest_id], the transaction hash, the wallet-data
    key, each unique) and gives a transaction output the composite key
    (transaction hash, output index).  [key_width] is the number of leading
    columns that form the key. *)
Definition key_width (t : Table) : nat :=
  match t with
  | TransactionOutputs => 2
  | _ => 1
  end%nat.

Fixpoint same_key (w : nat) (a b : Row) : bool :=
  match w, a, b with
  | O, _, _ => true
  | S w', x :: a', y :: b' => sql_eqb x y && same_key w' a' b'
  | S _, _, _ => false
  end.

(** Modelled from the spec: inserting a row whose key is already in the
    table is rejected by the store as a uniqueness violation. *)
Definition insert_row (t : Table) (rows : list Row) (r : Row) : result (list Row) :=
  if existsb (fun r' => same_key (key_width t) r' r) rows
  then Raise (IntegrityError "UNIQUE constraint failed")
  else Ok (rows ++ [r]).

(** [UPDATE WalletData SET value=?, date_updated=? WHERE key=?] on one row
    of the table. *)
Definition update_row (new_value new_date k : SqlVal) (r : Row) : Row :=
  match r with
  | [k'; v'; dc; du] => if sql_eqb k' k then [k'; new_value; dc; new_date] else r
  | _ => r
  end.

(** One execution of a statement with one parameter row. *)
Definition execute (db : Database) (q : Query) (params : list PyVal) : result Database :=
  if negb (List.length params =? bindings q)%nat then
    Raise (ProgrammingError "Incorrect number of bindings supplied")
  else
    match adapt_all params with
    | inl e => Raise e
    | inr row =>
        match q with
        | INSERT_INTO t =>
            match insert_row t (get_table db t) row with
            | inl e => Raise e
            | inr rows => Ok (set_table db t rows)
            end
        | UPDATE_WalletData =>
            match row with
            | [v; d; k] =>
                Ok (set_table db WalletData
                      (map (update_row v d k) (get_table db WalletData)))
            | _ => Ok db
            end
        end
    end.

(** [db.executemany(query, datas)]: the statement once per parameter row,
    in order, stopping at the first failure. *)
Fixpoint executemany (db : Database) (q : Query) (datas : list (list PyVal))
  : result Database :=
  match datas with
  | [] => Ok db
  | params :: rest =>
      match execute db q params with
      | inl e => Raise e
      | inr db' => executemany db' q rest
      end
  end.

(** [db.execute("SELECT value FROM WalletData WHERE key=?", (key,))] followed
    by [cursor.fetchone()]: the first matching row, as a one-column row. *)
Definition select_value (db : Database) (k : SqlVal) : option Row :=
  match find (fun r => match r with k' :: _ => sql_eqb k' k | [] => false end)
             (get_table db WalletData) with
  | Some r => Some [nth 1 r SqlNull]
  | None => None
  end.

(* ================================================================== *)
(** ** The database context and its writer *)
(* ================================================================== *)

(** The closure [_write] every function of the module posts: it captures a
    statement and its parameter rows and runs [db.executemany] on them. *)
Record Job := {
  job_query : Query;
  job_datas : list (list PyVal) }.

Definition run_job (db : Database) (j : Job) : result Database :=
  executemany db (job_query j) (job_datas j).

(** A [concurrent.futures.Future], named by the order of acceptance. *)
Record Future := { future_id : nat }.

Inductive Outcome : Type :=
| Succeeded
| Failed (cause : PyExc).

(** What the writer has done, in the order it happened. *)
Inductive Event : Type :=
| Accepted (id : nat)
| Began (id : nat)
| Finished (id : nat) (o : Outcome).

(** Modelled from the spec: [DatabaseContext] of [sqlite_support] is not part
    of this module.  The spec describes a single writer that owns the write
    connection, takes the operations posted to it from one queue in the order
    they were accepted, runs one at a time to completion or failure, and
    completes the operation's handle with the outcome; a failed batch leaves
    no partial effect.  [pending] is the queue (oldest first), [running] the
    operation the writer is executing, [history] the record of events. *)
Record DatabaseContext := {
  store : Database;
  pending : list (nat * Job);
  running : option (nat * Job);
  accepted : nat;
  history : list Event }.

Definition new_context (db : Database) : DatabaseContext :=
  {| store := db; pending := []; running := None; accepted := 0%nat;
     history := [] |}.

(** Modelled from the spec: [post_to_thread] accepts the operation, puts it
    at the back of the queue and returns its handle at once. *)
Definition post_to_thread (ctx : DatabaseContext) (j : Job)
  : Future * DatabaseContext :=
  let id := accepted ctx in
  ({| future_id := id |},
   {| store := store ctx;
      pending := pending ctx ++ [(id, j)];
      running := running ctx;
      accepted := S id;
      history := history ctx ++ [Accepted id] |}).

(** Modelled from the spec: the writer, when idle, takes the oldest queued
    operation. *)
Definition writer_begin (ctx : DatabaseContext) : option DatabaseContext :=
  match running ctx, pending ctx with
  | None, (id, j) :: q =>
      Some {| store := store ctx;
              pending := q;
              running := Some (id, j);
              accepted := accepted ctx;
              history := history ctx ++ [Began id] |}
  | _, _ => None
  end.

(** Modelled from the spec: the running operation ends; its effect is kept
    when it succeeded and dropped as a whole when it failed, and its handle is
    completed either way. *)
Definition writer_end (ctx : DatabaseContext) : option DatabaseContext :=
  match running ctx with
  | Some (id, j) =>
      match run_job (store ctx) j with
      | inr db' =>
          Some {| store := db';
                  pending := pending ctx;
                  running := None;
                  accepted := accepted ctx;
                  history := history ctx ++ [Finished id Succeeded] |}
      | inl e =>
          Some {| store := store ctx;
                  pending := pending ctx;
                  running := None;
                  accepted := accepted ctx;
                  history := history ctx ++ [Finished id (Failed e)] |}
      end
  | None => None
  end.

(** One move of the writer. *)
Definition writer_step (ctx : DatabaseContext) : option DatabaseContext :=
  match running ctx with
  | Some _ => writer_end ctx
  | None => writer_begin ctx
  end.

Fixpoint writer_run (n : nat) (ctx : DatabaseContext) : DatabaseContext :=
  match n with
  | O => ctx
  | S n' =>
      match writer_step ctx with
      | Some ctx' => writer_run n' ctx'
      | None => ctx
      end
  end.

(** The writer left alone until it has nothing more to do. *)
Definition drain (ctx : DatabaseContext) : DatabaseContext :=
  writer_run (2 * List.length (pending ctx) + 1) ctx.

(** [future.result()] once the handle is complete. *)
Definition future_outcome (ctx : DatabaseContext) (f : Future) : option Outcome :=
  match find (fun e => match e with
                       | Finished id _ => (id =? future_id f)%nat
                       | _ => false
                       end) (history ctx) with
  | Some (Finished _ o) => Some o
  | _ => None
  end.

(** Everything that can happen to a context: a caller posts an operation,
    the writer begins one, the writer ends one. *)
Inductive ctx_step : DatabaseContext -> DatabaseContext -> Prop :=
| step_post ctx j : ctx_step ctx (snd (post_to_thread ctx j))
| step_begin ctx ctx' : writer_begin ctx = Some ctx' -> ctx_step ctx ctx'
| step_end ctx ctx' : writer_end ctx = Some ctx' -> ctx_step ctx ctx'.

Inductive reachable (db : Database) : DatabaseContext -> Prop :=
| reach_new : reachable db (new_context db)
| reach_step ctx ctx' :
    reachable db ctx -> ctx_step ctx ctx' -> reachable db ctx'.

(* ================================================================== *)
(** ** The world and its monad *)
(* ================================================================== *)

(** Modelled from the spec: the wall clock behind [time.time()] and
    [util.get_timestamp()].  Successive readings may differ; [reads] counts
    the readings taken so far. *)
Record Clock := {
  readings : nat -> Z;
  reads : nat }.

Record World := {
  clock : Clock;
  db_context : DatabaseContext }.

(** A computation that may read the clock, post to the database context, and
    raise. *)
Definition M (A : Type) : Type := World -> result A * World.

Definition ret {A} (a : A) : M A := fun w => (Ok a, w).
Definition bind {A B} (m : M A) (k : A -> M B) : M B :=
  fun w =>
    match m w with
    | (inl e, w') => (Raise e, w')
    | (inr a, w') => k a w'
    end.
Definition lift {A} (r : result A) : M A := fun w => (r, w).

Notation "x <- m ;; k" := (bind m (fun x => k))
  (at level 61, m at next level, right associativity).

(** [get_timestamp()] and [int(time.time())]: one reading of the clock. *)
Definition get_timestamp : M Z :=
  fun w =>
    let c := clock w in
    (Ok (readings c (reads c)),
     {| clock := {| readings := readings c; reads := S (reads c) |};
        db_context := db_context w |}).

Definition time_time : M Z := get_timestamp.

(** [db_context.post_to_thread(_write)]. *)
Definition post (j : Job) : M Future :=
  fun w =>
    let '(f, ctx') := post_to_thread (db_context w) j in
    (Ok f, {| clock := clock w; db_context := ctx' |}).

(** [assert cond, msg]. *)
Definition py_assert (cond : bool) (msg : string) : result unit :=
  if cond then Ok tt else Raise (AssertionError msg).

(** A [for] loop that appends one row per entry and lets the first
    exception escape. *)
Fixpoint for_each {A B} (body : A -> result B) (entries : list A) : result (list B) :=
  match entries with
  | [] => Ok []
  | e :: rest =>
      match body e with
      | inl x => Raise x
      | inr row =>
          match for_each body rest with
          | inl x => Raise x
          | inr rows => Ok (row :: rows)
          end
      end
  end.

Notation "x <-? m ;; k" :=
  (match m with inl e => Raise e | inr x => k end)
  (at level 61, m at next level, right associativity).

(* ================================================================== *)
(** ** The functions of the module *)
(* ================================================================== *)

Definition is_bytes (v : PyVal) : bool :=
  match v with PyBytes _ => true | _ => false end.
Definition is_str (v : PyVal) : bool :=
  match v with PyStr _ => true | _ => false end.
Definition is_some {A} (o : option A) : bool :=
  match o with Some _ => true | None => false end.

Definition create_accounts1 (entries : list AccountRow1) : M Future :=
  timestamp <- get_timestamp ;;
  let datas :=
    map (fun t => AccountRow1_tuple t ++ [PyInt timestamp; PyInt timestamp])
        entries in
  post {| job_query := INSERT_INTO Accounts; job_datas := datas |}.

Definition create_keys1 (entries : list KeyInstanceRow1) : M Future :=
  timestamp <- time_time ;;
  let datas :=
    map (fun t => KeyInstanceRow1_tuple t ++ [PyInt timestamp; PyInt timestamp])
        entries in
  post {| job_query := INSERT_INTO KeyInstances; job_datas := datas |}.

Definition create_master_keys1 (entries : list MasterKeyRow1) : M Future :=
  timestamp <- get_timestamp ;;
  let datas :=
    map (fun t => MasterKeyRow1_tuple t ++ [PyInt timestamp; PyInt timestamp])
        entries in
  post {| job_query := INSERT_INTO MasterKeys; job_datas := datas |}.

(** [t[-1]] of a payment request is its [date_created]. *)
Definition create_payment_requests1 (entries : list PaymentRequestRow1) : M Future :=
  let datas :=
    map (fun t => PaymentRequestRow1_tuple t
                  ++ [last (PaymentRequestRow1_tuple t) PyNone])
        entries in
  post {| job_query := INSERT_INTO PaymentRequests; job_datas := datas |}.

Definition create_transaction_outputs1 (entries : list TransactionOutputRow1)
  : M Future :=
  timestamp <- time_time ;;
  let datas :=
    map (fun t => TransactionOutputRow1_tuple t
                  ++ [PyInt timestamp; PyInt timestamp])
        entries in
  post {| job_query := INSERT_INTO TransactionOutputs; job_datas := datas |}.

(** The flag arithmetic in the loop of [create_transactions1]:
    [flags &= ~METADATA_FIELD_MASK] and the three conditional [flags |= ...]. *)
Definition reconcile_flags (flags : Z) (metadata : TxData1) : Z :=
  let flags := Z.land flags (Z.lnot TxFlags1.METADATA_FIELD_MASK) in
  let flags :=
    if is_some (height metadata) then Z.lor flags TxFlags1.HasHeight else flags in
  let flags :=
    if is_some (fee metadata) then Z.lor flags TxFlags1.HasFee else flags in
  let flags :=
    if is_some (position metadata) then Z.lor flags TxFlags1.HasPosition
    else flags in
  flags.

(** The body of the loop of [create_transactions1]: the tuple appended for
    one entry, or the assertion that fails. *)
Definition transaction_row (entry : TransactionRow1) : result (list PyVal) :=
  let metadata := tx_data entry in
  let bytedata := tx_bytes entry in
  _ <-? py_assert (is_bytes (tx_hash entry) && is_some bytedata) "" ;;
  _ <-? py_assert (Z.land (flags entry) TxFlags1.HasByteData =? 0)
                  "this flag is not applicable" ;;
  let flags := reconcile_flags (flags entry) metadata in
  _ <-? py_assert (is_some (date_added metadata)
                   && is_some (date_updated metadata)) "" ;;
  Ok [tx_hash entry; opt_bytes bytedata; PyInt flags;
      opt_int (height metadata); opt_int (position metadata);
      opt_int (fee metadata); opt_str (description entry);
      opt_int (version entry); opt_int (locktime entry);
      opt_int (date_added metadata); opt_int (date_updated metadata)].

Definition create_transactions1 (entries : list TransactionRow1) : M Future :=
  datas <- lift (for_each transaction_row entries) ;;
  post {| job_query := INSERT_INTO Transactions; job_datas := datas |}.

(** The body of the loop of [create_wallet_datas1]. *)
Definition wallet_data_insert_row (timestamp : Z) (entry : WalletDataRow1)
  : result (list PyVal) :=
  _ <-? py_assert (is_str (key entry)) "bad key" ;;
  data <-? json_dumps (value entry) ;;
  Ok [key entry; PyStr data; PyInt timestamp; PyInt timestamp].

Definition create_wallet_datas1 (entries : list WalletDataRow1) : M Future :=
  timestamp <- get_timestamp ;;
  rows <- lift (for_each (wallet_data_insert_row timestamp) entries) ;;
  post {| job_query := INSERT_INTO WalletData; job_datas := rows |}.

(** [read_wallet_data1], as [replace_db_context_with_connection] presents it:
    called on the database context, it runs on a connection to the context's
    store. *)
Definition read_wallet_data1 (key : PyVal) : M PyVal :=
  fun w =>
    let db := store (db_context w) in
    (k <-? adapt key ;;
     match select_value db k with
     | Some row =>
         match nth 0 row SqlNull with
         | SqlText s => json_loads s
         | SqlBlob _ => Raise (Unmodelled "json.loads of bytes")
         | _ => Raise (TypeError "the JSON object must be str, bytes or bytearray")
         end
     | None => Ok PyNone
     end, w).

(** The body of the loop of [update_wallet_datas1]. *)
Definition wallet_data_update_row (timestamp : Z) (entry : WalletDataRow1)
  : result (list PyVal) :=
  data <-? json_dumps (value entry) ;;
  Ok [PyStr data; PyInt timestamp; key entry].

Definition update_wallet_datas1 (entries : list WalletDataRow1) : M Future :=
  timestamp <- get_timestamp ;;
  rows <- lift (for_each (wallet_data_update_row timestamp) entries) ;;
  post {| job_query := UPDATE_WalletData; job_datas := rows |}.

(** A world whose clock reads [now], [now + 1], ... and whose context is
    fresh on [db]. *)
Definition world_at (now : Z) (db : Database) : World :=
  {| clock := {| readings := fun i => (now + Z.of_nat i)%Z; reads := 0 |};
     db_context := new_context db |}.

(** The world after the writer has finished everything that was posted. *)
Definition settle (w : World) : World :=
  {| clock := clock w; db_context := drain (db_context w) |}.

(** *** [TxData1.__repr__] *)

(** [str(x)] of an [Optional[int]], as an f-string field writes it. *)
Definition str_opt_int (o : option Z) : pystr :=
  match o with
  | Some z => int_repr z
  | None => lit "None"
  end.

Definition TxData1_repr (self : TxData1) : pystr :=
  lit "TxData1(height=" ++ str_opt_int (height self)
  ++ lit ",position=" ++ str_opt_int (position self)
  ++ lit ",fee=" ++ str_opt_int (fee self)
  ++ lit ",date_added=" ++ str_opt_int (date_added self)
  ++ lit ",date_updated=" ++ str_opt_int (date_updated self)
  ++ lit ")".

(* ================================================================== *)
(** ** The vocabulary of the properties *)
(* ================================================================== *)

(** The world after [j] has been posted from [w]. *)
Definition posted (w : World) (j : Job) : World :=
  {| clock := clock w; db_context := snd (post_to_thread (db_context w) j) |}.

(** The handle the next accepted operation gets. *)
Definition next_future (w : World) : Future :=
  {| future_id := accepted (db_context w) |}.

(** An entry [create_transactions1] refuses. *)
Definition violates (e : TransactionRow1) : Prop :=
  Z.land (flags e) TxFlags1.HasByteData <> 0
  \/ is_bytes (tx_hash e) = false
  \/ tx_bytes e = None
  \/ date_added (tx_data e) = None
  \/ date_updated (tx_data e) = None.

Definition entry_ok (e : TransactionRow1) : bool :=
  is_bytes (tx_hash e) && is_some (tx_bytes e)
  && (Z.land (flags e) TxFlags1.HasByteData =? 0)
  && is_some (date_added (tx_data e)) && is_some (date_updated (tx_data e)).

(** The tuple appended for an accepted entry. *)
Definition stored_row (e : TransactionRow1) : list PyVal :=
  [tx_hash e; opt_bytes (tx_bytes e);
   PyInt (reconcile_flags (flags e) (tx_data e));
   opt_int (height (tx_data e)); opt_int (position (tx_data e));
   opt_int (fee (tx_data e)); opt_str (description e);
   opt_int (version e); opt_int (locktime e);
   opt_int (date_added (tx_data e)); opt_int (date_updated (tx_data e))].

Definition sample_metadata : TxData1 :=
  {| height := Some 5; position := None; fee := Some 120;
     date_added := Some 1600000000; date_updated := Some 1600000001 |}.

(** An entry whose caller left [HasPosition] set although there is no
    position, and [STATE_SETTLED] set. *)
Definition sample_entry : TransactionRow1 :=
  {| tx_hash := PyBytes [Byte.x01; Byte.x02];
     tx_data := sample_metadata;
     tx_bytes := Some [Byte.xff];
     flags := Z.lor TxFlags1.HasPosition TxFlags1.STATE_SETTLED;
     description := None; version := Some 1; locktime := Some 0 |}.

(** The entry with its flags word replaced. *)
Definition with_flags (e : TransactionRow1) (f : Z) : TransactionRow1 :=
  {| tx_hash := tx_hash e; tx_data := tx_data e; tx_bytes := tx_bytes e;
     flags := f; description := description e; version := version e;
     locktime := locktime e |}.

(** An entry with the reserved [HasByteData] bit set. *)
Definition bytedata_entry : TransactionRow1 :=
  with_flags sample_entry TxFlags1.HasByteData.

(** A wallet-data entry whose key is the integer 5. *)
Definition int_key_entry : WalletDataRow1 :=
  {| key := PyInt 5; value := PyStr (lit "v") |}.

(** The reading the clock gives next. *)
Definition now (w : World) : Z := readings (clock w) (reads (clock w)).

(** The world after one reading of the clock. *)
Definition tick (w : World) : World :=
  {| clock := {| readings := readings (clock w); reads := S (reads (clock w)) |};
     db_context := db_context w |}.

(** The row has the width of the table, and both of its timestamp columns
    hold [ts]. *)
Definition stamped (t : Table) (ts : Z) (row : list PyVal) : Prop :=
  List.length row = bindings (INSERT_INTO t)
  /\ nth (date_created_col t) row PyNone = PyInt ts
  /\ nth (date_updated_col t) row PyNone = PyInt ts.

(** One operation was posted after exactly one reading of the clock, with one
    row per entry, every row stamped with that one reading. *)
Definition creates_with_one_timestamp {A}
    (create : list A -> M Future) (t : Table) (entries : list A) (w : World)
  : Prop :=
  exists datas,
    create entries w =
      (Ok (next_future w),
       posted (tick w) {| job_query := INSERT_INTO t; job_datas := datas |})
    /\ List.length datas = List.length entries
    /\ Forall (stamped t (now w)) datas.

Definition sample_account : AccountRow1 :=
  {| account_id := 1; default_masterkey_id := None; default_script_type := 2;
     account_name := lit "main" |}.

Definition sample_wallet_entry : WalletDataRow1 :=
  {| key := PyStr (lit "k"); value := PyStr (lit "v") |}.


Definition sample_store : Database :=
  set_table empty_database WalletData
    [[SqlText (lit "seed"); SqlText (lit "1"); SqlInt 1600000000; SqlInt 1600000000]].

(** The number of operations the writer has taken from the queue. *)
Definition begun (ctx : DatabaseContext) : nat :=
  (accepted ctx - List.length (pending ctx))%nat.

(** What holds of every context the system can be in. *)
Record writer_inv (ctx : DatabaseContext) : Prop := {
  inv_le : (List.length (pending ctx) <= accepted ctx)%nat;
  inv_pending :
    map fst (pending ctx) = seq (begun ctx) (List.length (pending ctx));
  inv_running : forall id j,
    running ctx = Some (id, j) ->
    S id = begun ctx /\ In (Began id) (history ctx);
  inv_done : forall i,
    (i < begun ctx)%nat ->
    (exists j, running ctx = Some (i, j))
    \/ (exists o, In (Finished i o) (history ctx));
  inv_began : forall i, In (Began i) (history ctx) -> (i < begun ctx)%nat;
  inv_accepted : forall i,
    In (Accepted i) (history ctx) <-> (i < accepted ctx)%nat;
  inv_accept_order : forall h1 h2 j,
    history ctx = h1 ++ Accepted j :: h2 ->
    forall i, In (Accepted i) h1 -> (i < j)%nat;
  inv_begin_order : forall h1 h2 j,
    history ctx = h1 ++ Began j :: h2 ->
    In (Accepted j) h1
    /\ (forall i, (i < j)%nat -> exists o, In (Finished i o) h1)
    /\ (forall i, In (Began i) h1 -> exists o, In (Finished i o) h1);
  inv_finish_order : forall h1 h2 i o,
    history ctx = h1 ++ Finished i o :: h2 -> In (Began i) h1 }.

(** The moves the writer still has to make. *)
Definition load (ctx : DatabaseContext) : nat :=
  (2 * List.length (pending ctx)
   + match running ctx with Some _ => 1 | None => 0 end)%nat.

(** A batch the store rejects: the same account twice. *)
Definition failing_job : Job :=
  {| job_query := INSERT_INTO Accounts;
     job_datas := [AccountRow1_tuple sample_account ++ [PyInt 1; PyInt 1];
                   AccountRow1_tuple sample_account ++ [PyInt 1; PyInt 1]] |}.

Definition good_job : Job :=
  {| job_query := INSERT_INTO WalletData;
     job_datas := [[PyStr (lit "k"); PyStr (lit "1"); PyInt 1; PyInt 1]] |}.

(** The failing batch posted first, the good one second, and the writer
    left to run. *)
Definition two_posts : DatabaseContext :=
  drain (snd (post_to_thread
                (snd (post_to_thread (new_context empty_database) failing_job))
                good_job)).

Local Open Scope N_scope.









Section PyVal_induction.

Variable P : PyVal -> Prop.
Hypothesis HNone : P PyNone.
Hypothesis HBool : forall b, P (PyBool b).
Hypothesis HInt : forall n, P (PyInt n).
Hypothesis HStr : forall s, P (PyStr s).
Hypothesis HBytes : forall b, P (PyBytes b).
Hypothesis HList : forall xs, Forall P xs -> P (PyList xs).
Hypothesis HTuple : forall xs, Forall P xs -> P (PyTuple xs).
Hypothesis HDict :
  forall kvs, Forall (fun kv => P (fst kv) /\ P (snd kv)) kvs -> P (PyDict kvs).

Fixpoint PyVal_nested_ind (v : PyVal) : P v :=
  match v with
  | PyNone => HNone
  | PyBool b => HBool b
  | PyInt n => HInt n
  | PyStr s => HStr s
  | PyBytes b => HBytes b
  | PyList xs =>
      HList xs
        ((fix go (l : list PyVal) : Forall P l :=
            match l with
            | [] => Forall_nil P
            | x :: r => Forall_cons x (PyVal_nested_ind x) (go r)
            end) xs)
  | PyTuple xs =>
      HTuple xs
        ((fix go (l : list PyVal) : Forall P l :=
            match l with
            | [] => Forall_nil P
            | x :: r => Forall_cons x (PyVal_nested_ind x) (go r)
            end) xs)
  | PyDict kvs =>
      HDict kvs
        ((fix go (l : list (PyVal * PyVal))
            : Forall (fun kv => P (fst kv) /\ P (snd kv)) l :=
            match l with
            | [] => Forall_nil _
            | kv :: r =>
                Forall_cons kv
                  (conj (PyVal_nested_ind (fst kv)) (PyVal_nested_ind (snd kv)))
                  (go r)
            end) kvs)
  end.

End PyVal_induction.

(** The exception that stands for an exhausted [fuel]. *)
Definition out_of_fuel : PyExc := Unmodelled "fuel".




Local Close Scope N_scope.

(** *** Further vocabulary *)




(** A printable ASCII character. *)
Definition printable (c : N) : Prop := (32 <= c /\ c <= 126)%N.






(** [word & flag != 0]. *)
Definition has_flag (word flag : Z) : bool := negb (Z.land word flag =? 0).

Definition not_null (v : SqlVal) : bool :=
  match v with SqlNull => false | _ => true end.

(** A column bound from an [Optional[int]]. *)
Definition null_or_int (o : option Z) : SqlVal :=
  match o with Some z => SqlInt z | None => SqlNull end.

(** A column bound from an [Optional[str]]. *)
Definition null_or_text (o : option pystr) : SqlVal :=
  match o with Some s => SqlText s | None => SqlNull end.

(** A row of the [Transactions] table whose flags agree with its columns:
    eleven columns; the hash and the data are blobs; [HasHeight],
    [HasPosition] and [HasFee] are set in the flags exactly when
    [block_height], [block_position] and [fee_value] are not [NULL];
    [HasByteData] is clear; both dates are integers. *)
Definition coherent_row (r : Row) : Prop :=
  List.length r = 11%nat
  /\ (exists h b, nth 0 r SqlNull = SqlBlob h /\ nth 1 r SqlNull = SqlBlob b)
  /\ (exists f,
        nth 2 r SqlNull = SqlInt f
        /\ has_flag f TxFlags1.HasHeight = not_null (nth 3 r SqlNull)
        /\ has_flag f TxFlags1.HasPosition = not_null (nth 4 r SqlNull)
        /\ has_flag f TxFlags1.HasFee = not_null (nth 5 r SqlNull)
        /\ has_flag f TxFlags1.HasByteData = false)
  /\ (exists a u, nth 9 r SqlNull = SqlInt a /\ nth 10 r SqlNull = SqlInt u).




(** On an empty batch [create] still posts one operation; the writer completes
    it with success and the store is what it was. *)
Definition posts_empty_batch {A} (create : list A -> M Future) : Prop :=
  forall (c : Clock) (db : Database),
    let w := {| clock := c; db_context := new_context db |} in
    exists (f : Future) (w1 : World),
      create [] w = (Ok f, w1)
      /\ List.length (pending (db_context w1)) = 1%nat
      /\ future_outcome (db_context (settle w1)) f = Some Succeeded
      /\ store (db_context (settle w1)) = db.

(** A value with a letter outside ASCII, a control character and a code
    point beyond the basic plane. *)
Definition unicode_entry : WalletDataRow1 :=
  {| key := PyStr (lit "k");
     value := PyList [PyStr [233%N; 10%N; 128512%N]; PyInt (-7)] |}.



(** The comparison [self == other] of two [TxData1] answers [True]. *)
Definition TxData1_equal (a b : TxData1) : Prop :=
  TxData1_eq a (ObjTxData1 b) = EqBool true.

(** A character that stands in a field of the [repr]: neither the comma nor
    the closing parenthesis. *)
Definition field_char (c : N) : Prop := c <> Ch.COMMA /\ c <> 41%N.

(** The keys of a batch of wallet-data entries, when all are strings. *)
Fixpoint entry_keys (entries : list WalletDataRow1) : list pystr :=
  match entries with
  | [] => []
  | e :: r =>
      match key e with
      | PyStr k => k :: entry_keys r
      | _ => entry_keys r
      end
  end.

(* ================================================================== *)
(** * Properties *)
(* ================================================================== *)



(** ** Flag words *)

Section FlagBits.

Lemma testbit_single (n i : Z) :
  0 <= n -> Z.testbit (Z.shiftl 1 n) i = (n =? i).
Proof.
  intros Hn. rewrite Z.shiftl_1_l. now apply Z.pow2_bits_eqb.
Qed.

Lemma testbit_mask (i : Z) :
  Z.testbit TxFlags1.METADATA_FIELD_MASK i = (4 =? i) || (5 =? i) || (6 =? i).
Proof.
  unfold TxFlags1.METADATA_FIELD_MASK, TxFlags1.HasFee, TxFlags1.HasHeight,
    TxFlags1.HasPosition.
  rewrite !Z.lor_spec, !testbit_single by lia. reflexivity.
Qed.

(** Bit by bit, what the flag arithmetic of [create_transactions1]
    produces. *)
Lemma reconcile_flags_testbit (f : Z) (m : TxData1) (i : Z) :
  0 <= i ->
  Z.testbit (reconcile_flags f m) i =
    if i =? 5 then is_some (height m)
    else if i =? 4 then is_some (fee m)
    else if i =? 6 then is_some (position m)
    else Z.testbit f i.
Proof.
  intros Hi. unfold reconcile_flags.
  assert (Hclr : Z.testbit (Z.land f (Z.lnot TxFlags1.METADATA_FIELD_MASK)) i
                 = Z.testbit f i && negb ((4 =? i) || (5 =? i) || (6 =? i))).
  { rewrite Z.land_spec, Z.lnot_spec, testbit_mask by lia. reflexivity. }
  rewrite (Z.eqb_sym i 5), (Z.eqb_sym i 4), (Z.eqb_sym i 6).
  destruct (height m), (fee m), (position m); cbn [is_some];
    unfold TxFlags1.HasFee, TxFlags1.HasHeight, TxFlags1.HasPosition;
    rewrite ?Z.lor_spec, ?testbit_single, Hclr by lia;
    destruct (Z.eqb_spec 4 i), (Z.eqb_spec 5 i), (Z.eqb_spec 6 i);
    try lia; destruct (Z.testbit f i); reflexivity.
Qed.

Lemma land_single_zero (f n : Z) :
  0 <= n -> (Z.land f (Z.shiftl 1 n) = 0 <-> Z.testbit f n = false).
Proof.
  intros Hn. split; intros H.
  - assert (E : Z.testbit (Z.land f (Z.shiftl 1 n)) n = false)
      by (rewrite H; apply Z.bits_0).
    rewrite Z.land_spec, testbit_single, Z.eqb_refl, Bool.andb_true_r in E by lia.
    exact E.
  - apply Z.bits_inj'. intros i Hi.
    rewrite Z.land_spec, testbit_single, Z.bits_0 by lia.
    destruct (Z.eqb_spec n i); subst; rewrite ?H, ?Bool.andb_false_r; reflexivity.
Qed.

Lemma reconcile_flags_idempotent (f : Z) (m : TxData1) :
  reconcile_flags (reconcile_flags f m) m = reconcile_flags f m.
Proof.
  apply Z.bits_inj'. intros i Hi.
  rewrite !reconcile_flags_testbit by lia.
  destruct (i =? 5), (i =? 4), (i =? 6); reflexivity.
Qed.

Lemma reconcile_flags_bytedata (f : Z) (m : TxData1) :
  Z.land f TxFlags1.HasByteData = 0 ->
  Z.land (reconcile_flags f m) TxFlags1.HasByteData = 0.
Proof.
  unfold TxFlags1.HasByteData. rewrite !land_single_zero by lia.
  intros H. rewrite reconcile_flags_testbit by lia. exact H.
Qed.

End FlagBits.

(** ** Transactions *)

Lemma entry_ok_iff (e : TransactionRow1) : entry_ok e = true <-> ~ violates e.
Proof.
  unfold entry_ok, violates.
  rewrite !Bool.andb_true_iff, Z.eqb_eq.
  destruct (is_bytes (tx_hash e)), (tx_bytes e), (date_added (tx_data e)),
    (date_updated (tx_data e)); cbn [is_some];
    destruct (Z.eq_dec (Z.land (flags e) TxFlags1.HasByteData) 0);
    intuition congruence.
Qed.

Lemma transaction_row_ok (e : TransactionRow1) :
  entry_ok e = true -> transaction_row e = Ok (stored_row e).
Proof.
  unfold entry_ok, transaction_row, stored_row, py_assert.
  rewrite !Bool.andb_true_iff. intros [[[[Hb Hd] Hf] Ha] Hu].
  rewrite Hb, Hd, Hf, Ha, Hu. reflexivity.
Qed.

Lemma transaction_row_bad (e : TransactionRow1) :
  entry_ok e = false -> exists msg, transaction_row e = Raise (AssertionError msg).
Proof.
  unfold entry_ok, transaction_row, py_assert. intros H.
  destruct (is_bytes (tx_hash e) && is_some (tx_bytes e));
    [|eexists; reflexivity].
  destruct (Z.land (flags e) TxFlags1.HasByteData =? 0);
    [|eexists; reflexivity].
  rewrite <- Bool.andb_assoc in H. cbn in H. rewrite H.
  eexists; reflexivity.
Qed.

Lemma for_each_all_ok {A B} (body : A -> result B) (g : A -> B) (l : list A) :
  Forall (fun a => body a = Ok (g a)) l -> for_each body l = Ok (map g l).
Proof.
  induction 1 as [|a l Ha _ IH]; cbn; [reflexivity|].
  rewrite Ha. cbn. rewrite IH. reflexivity.
Qed.

Lemma for_each_assertion {A B} (body : A -> result B) (l : list A) :
  (forall a, In a l ->
     (exists b, body a = Ok b) \/ (exists msg, body a = Raise (AssertionError msg))) ->
  Exists (fun a => exists msg, body a = Raise (AssertionError msg)) l ->
  exists msg, for_each body l = Raise (AssertionError msg).
Proof.
  induction l as [|a l IH]; intros Hall Hex; [inversion Hex|].
  cbn. destruct (Hall a (or_introl eq_refl)) as [[b Hb]|[msg Hm]].
  - rewrite Hb. inversion Hex as [? ? [msg Hm]|? ? Hex']; subst.
    + unfold Ok, Raise in *. congruence.
    + destruct IH as [msg Hm]; [intros; apply Hall; now right | exact Hex' |].
      rewrite Hm. eexists; reflexivity.
  - rewrite Hm. eexists; reflexivity.
Qed.

Lemma create_transactions1_unfold (entries : list TransactionRow1) (w : World) :
  create_transactions1 entries w =
    match for_each transaction_row entries with
    | inl e => (Raise e, w)
    | inr datas =>
        (Ok (next_future w),
         posted w {| job_query := INSERT_INTO Transactions; job_datas := datas |})
    end.
Proof.
  unfold create_transactions1, bind, lift, post, posted, next_future.
  destruct (for_each transaction_row entries); reflexivity.
Qed.

Lemma create_transactions1_accepts (entries : list TransactionRow1) (w : World) :
  Forall (fun e => ~ violates e) entries ->
  create_transactions1 entries w =
    (Ok (next_future w),
     posted w {| job_query := INSERT_INTO Transactions;
                 job_datas := map stored_row entries |}).
Proof.
  intros H. rewrite create_transactions1_unfold.
  rewrite (for_each_all_ok transaction_row stored_row); [reflexivity|].
  eapply Forall_impl; [|exact H]. intros e He.
  now apply transaction_row_ok, entry_ok_iff.
Qed.



(** C2. The flag reconciliation of [create_transactions1] is idempotent: on a
    flags word with [HasByteData] clear, the reconciled word again has
    [HasByteData] clear, reconciling it once more with the same metadata
    changes nothing, and an entry that carries the reconciled word produces
    the very row the original entry produced. *)
Theorem reconciliation_idempotent (e : TransactionRow1) :
  Z.land (flags e) TxFlags1.HasByteData = 0 ->
  let once := reconcile_flags (flags e) (tx_data e) in
  Z.land once TxFlags1.HasByteData = 0
  /\ reconcile_flags once (tx_data e) = once
  /\ transaction_row (with_flags e once) = transaction_row e.
Proof.
  intros Hclear once. subst once.
  pose proof (reconcile_flags_bytedata _ (tx_data e) Hclear) as Hb.
  repeat split.
  - exact Hb.
  - apply reconcile_flags_idempotent.
  - unfold transaction_row. cbn [tx_hash tx_data tx_bytes flags description
                                  version locktime with_flags].
    rewrite Hb, Hclear, reconcile_flags_idempotent. reflexivity.
Qed.

Lemma reconciliation_idempotent_witness :
  Z.land (reconcile_flags (flags sample_entry) (tx_data sample_entry))
         TxFlags1.HasByteData = 0
  /\ reconcile_flags (reconcile_flags (flags sample_entry) (tx_data sample_entry))
                     (tx_data sample_entry)
     = reconcile_flags (flags sample_entry) (tx_data sample_entry)
  /\ transaction_row
       (with_flags sample_entry
          (reconcile_flags (flags sample_entry) (tx_data sample_entry)))
     = transaction_row sample_entry.
Proof.
  apply (reconciliation_idempotent sample_entry). vm_compute. reflexivity.
Defined.

(** C3. [create_transactions1] raises an [AssertionError] and leaves the
    world as it found it (nothing posted, the store untouched) whenever some
    entry has [HasByteData] set, or a [tx_hash] that is not [bytes], or no
    byte payload, or a [date_added] or [date_updated] that is [None]; when no
    entry is of that kind it raises nothing and posts one operation. *)
Theorem create_transactions1_preconditions
    (entries : list TransactionRow1) (w : World) :
  (Exists violates entries ->
     exists msg, create_transactions1 entries w = (Raise (AssertionError msg), w))
  /\ (Forall (fun e => ~ violates e) entries ->
        exists datas,
          create_transactions1 entries w =
            (Ok (next_future w),
             posted w {| job_query := INSERT_INTO Transactions;
                         job_datas := datas |})
          /\ List.length datas = List.length entries).
Proof.
  split.
  - intros Hex. rewrite create_transactions1_unfold.
    destruct (for_each_assertion transaction_row entries) as [msg Hm].
    + intros e _. destruct (entry_ok e) eqn:E.
      * left. eexists. now apply transaction_row_ok.
      * right. now apply transaction_row_bad.
    + eapply Exists_impl; [|exact Hex]. intros e He.
      apply transaction_row_bad. destruct (entry_ok e) eqn:E; [|reflexivity].
      apply entry_ok_iff in E. contradiction.
    + rewrite Hm. eexists; reflexivity.
  - intros Hall. exists (map stored_row entries). split.
    + now apply create_transactions1_accepts.
    + apply length_map.
Qed.

Lemma create_transactions1_preconditions_witness :
  (exists msg,
     create_transactions1 [sample_entry; bytedata_entry] (world_at 0 empty_database)
     = (Raise (AssertionError msg), world_at 0 empty_database))
  /\ (exists datas,
        create_transactions1 [sample_entry] (world_at 0 empty_database) =
          (Ok (next_future (world_at 0 empty_database)),
           posted (world_at 0 empty_database)
             {| job_query := INSERT_INTO Transactions; job_datas := datas |})
        /\ List.length datas = 1%nat).
Proof.
  split.
  - apply (create_transactions1_preconditions
             [sample_entry; bytedata_entry] (world_at 0 empty_database)).
    right. left. left. vm_compute. discriminate.
  - apply (create_transactions1_preconditions
             [sample_entry] (world_at 0 empty_database)).
    repeat constructor.
    intros [H|[H|[H|[H|H]]]]; vm_compute in H; congruence.
Defined.

(** ** [TxData1.__eq__] *)

(** C10. [TxData1.__eq__] looks at [height], [position] and [fee] only: it
    answers [True] exactly when those three agree, whatever [date_added] and
    [date_updated] are, and it answers [NotImplemented], not [False], when
    the other operand is not a [TxData1]. *)
Theorem TxData1_eq_spec :
  (forall a b : TxData1,
      TxData1_eq a (ObjTxData1 b) = EqBool true
      <-> height a = height b /\ position a = position b /\ fee a = fee b)
  /\ (forall a b : TxData1,
        TxData1_eq a (ObjTxData1 b) = EqBool true
        \/ TxData1_eq a (ObjTxData1 b) = EqBool false)
  /\ (forall h p f d1 u1 d2 u2,
        TxData1_eq
          {| height := h; position := p; fee := f;
             date_added := d1; date_updated := u1 |}
          (ObjTxData1 {| height := h; position := p; fee := f;
                         date_added := d2; date_updated := u2 |})
        = EqBool true)
  /\ (forall (a : TxData1) (v : PyVal),
        TxData1_eq a (ObjValue v) = NotImplemented
        /\ TxData1_eq a (ObjValue v) <> EqBool false).
Proof.
  assert (Heq : forall x y, opt_int_eqb x y = true <-> x = y).
  { intros [x|] [y|]; cbn; rewrite ?Z.eqb_eq; split; congruence. }
  assert (Hiff : forall a b : TxData1,
      TxData1_eq a (ObjTxData1 b) = EqBool true
      <-> height a = height b /\ position a = position b /\ fee a = fee b).
  { intros a b. cbn. rewrite <- !Heq. split.
    - intros H. injection H as H. apply Bool.andb_true_iff in H.
      destruct H as [H H3]. apply Bool.andb_true_iff in H. tauto.
    - intros (H1 & H2 & H3). rewrite H1, H2, H3. reflexivity. }
  split; [exact Hiff|]. split; [|split].
  - intros a b. cbn.
    destruct (opt_int_eqb (height a) (height b)
              && opt_int_eqb (position a) (position b)
              && opt_int_eqb (fee a) (fee b)); auto.
  - intros. apply Hiff. cbn. auto.
  - intros a v. split; [reflexivity|discriminate].
Qed.

(** ** Wallet data: construction *)

Lemma create_wallet_datas1_unfold (entries : list WalletDataRow1) (w : World) :
  create_wallet_datas1 entries w =
    let ts := readings (clock w) (reads (clock w)) in
    let w1 := {| clock := {| readings := readings (clock w);
                             reads := S (reads (clock w)) |};
                 db_context := db_context w |} in
    match for_each (wallet_data_insert_row ts) entries with
    | inl e => (Raise e, w1)
    | inr rows =>
        (Ok (next_future w),
         posted w1 {| job_query := INSERT_INTO WalletData; job_datas := rows |})
    end.
Proof.
  unfold create_wallet_datas1, bind, lift, post, posted, next_future, get_timestamp.
  cbn. destruct (for_each _ entries); reflexivity.
Qed.

Lemma update_wallet_datas1_unfold (entries : list WalletDataRow1) (w : World) :
  update_wallet_datas1 entries w =
    let ts := readings (clock w) (reads (clock w)) in
    let w1 := {| clock := {| readings := readings (clock w);
                             reads := S (reads (clock w)) |};
                 db_context := db_context w |} in
    match for_each (wallet_data_update_row ts) entries with
    | inl e => (Raise e, w1)
    | inr rows =>
        (Ok (next_future w),
         posted w1 {| job_query := UPDATE_WalletData; job_datas := rows |})
    end.
Proof.
  unfold update_wallet_datas1, bind, lift, post, posted, next_future, get_timestamp.
  cbn. destruct (for_each _ entries); reflexivity.
Qed.

Lemma for_each_raises {A B} (body : A -> result B) (l : list A) :
  Exists (fun a => is_raise (body a) = true) l ->
  is_raise (for_each body l) = true.
Proof.
  induction l as [|a l IH]; intros Hex; [inversion Hex|].
  cbn. destruct (body a) eqn:Ea; [reflexivity|].
  inversion Hex as [? ? Hr|? ? Hex']; subst.
  - rewrite Ea in Hr. discriminate.
  - specialize (IH Hex'). destruct (for_each body l); [reflexivity|discriminate].
Qed.

(** The creating path does check its keys: a key that is not a [str] makes
    [create_wallet_datas1] raise, and nothing reaches the database context. *)
Lemma create_wallet_datas1_checks_key (entries : list WalletDataRow1) (w : World) :
  Exists (fun e => is_str (key e) = false) entries ->
  exists exc w',
    create_wallet_datas1 entries w = (Raise exc, w')
    /\ db_context w' = db_context w.
Proof.
  intros Hex. rewrite create_wallet_datas1_unfold. cbv zeta.
  pose proof (for_each_raises
                (wallet_data_insert_row (readings (clock w) (reads (clock w))))
                entries) as Hr.
  destruct (for_each _ entries) as [exc|rows].
  - eexists _, _. split; reflexivity.
  - cbn in Hr. assert (false = true) as Habs; [|discriminate].
    apply Hr. eapply Exists_impl; [|exact Hex].
    intros e He. unfold wallet_data_insert_row, py_assert. rewrite He. reflexivity.
Qed.

(** C5. At the entry [WalletDataRow1(key=5, value="v")], whose key is not a
    string, [create_wallet_datas1] raises an [AssertionError] and posts
    nothing, whereas [update_wallet_datas1] raises nothing: it posts the
    operation, key 5 included, to the writer. *)
Theorem update_wallet_datas1_unchecked_key :
  let w := world_at 1600000000 empty_database in
  (exists msg w',
      create_wallet_datas1 [int_key_entry] w = (Raise (AssertionError msg), w')
      /\ db_context w' = db_context w)
  /\ fst (update_wallet_datas1 [int_key_entry] w) = Ok {| future_id := 0 |}
  /\ pending (db_context (snd (update_wallet_datas1 [int_key_entry] w))) =
       [(0%nat,
         {| job_query := UPDATE_WalletData;
            job_datas :=
              [[PyStr (Ch.QUOTE :: lit "v" ++ [Ch.QUOTE]); PyInt 1600000000;
                PyInt 5]] |})].
Proof.
  cbv zeta. split; [|split].
  - eexists _, _. split; reflexivity.
  - reflexivity.
  - reflexivity.
Qed.

(** ** Creation timestamps *)

Lemma Forall_map_intro {A B} (P : B -> Prop) (f : A -> B) (l : list A) :
  (forall a, P (f a)) -> Forall P (map f l).
Proof. intros H. induction l; cbn; constructor; auto. Qed.

Lemma for_each_wallet_rows (ts : Z) (entries : list WalletDataRow1) :
  Forall (fun e => is_str (key e) = true
                   /\ is_raise (json_dumps (value e)) = false) entries ->
  exists rows,
    for_each (wallet_data_insert_row ts) entries = Ok rows
    /\ List.length rows = List.length entries
    /\ Forall (stamped WalletData ts) rows.
Proof.
  induction 1 as [|e l [Hk Hv] _ (rows & Hrows & Hlen & Hst)].
  - exists []. repeat split. constructor.
  - destruct (json_dumps (value e)) as [exc|data] eqn:Ed; [discriminate|].
    exists ([key e; PyStr data; PyInt ts; PyInt ts] :: rows).
    cbn. unfold wallet_data_insert_row at 1, py_assert. rewrite Hk, Ed, Hrows.
    repeat split; cbn; auto.
    constructor; [|exact Hst]. repeat split.
Qed.

Lemma get_set_table (db : Database) (t : Table) (rows : list Row) :
  get_table (set_table db t rows) t = rows.
Proof. destruct db, t; reflexivity. Qed.

Lemma adapt_all_nth (params : list PyVal) (row : Row) (i : nat) (z : Z) :
  adapt_all params = Ok row ->
  nth i params PyNone = PyInt z -> nth i row SqlNull = SqlInt z.
Proof.
  revert row i. induction params as [|v r IH]; intros row i Ha Hn.
  - destruct i; discriminate.
  - cbn [adapt_all] in Ha. destruct (adapt v) as [|x] eqn:Ev; [discriminate|].
    destruct (adapt_all r) as [|xs] eqn:Er; [discriminate|].
    injection Ha as <-. destruct i as [|i].
    + cbn in Hn. subst v. cbn in Ev. injection Ev as <-. reflexivity.
    + cbn [nth] in *. now apply IH.
Qed.

(** What a batch of [INSERT]s that succeeds leaves in the table: the rows
    that were there, then the posted rows as [sqlite3] binds them, in
    order. *)
Lemma executemany_insert (t : Table) (datas : list (list PyVal)) :
  forall db db',
    executemany db (INSERT_INTO t) datas = Ok db' ->
    exists rows,
      Forall2 (fun params row => adapt_all params = Ok row) datas rows
      /\ get_table db' t = get_table db t ++ rows.
Proof.
  induction datas as [|params rest IH]; intros db db' H.
  - injection H as <-. exists []. split; [constructor|now rewrite app_nil_r].
  - cbn [executemany] in H.
    destruct (execute db (INSERT_INTO t) params) as [|d] eqn:E; [discriminate|].
    unfold execute in E.
    destruct (negb (List.length params =? bindings (INSERT_INTO t))%nat);
      [discriminate|].
    destruct (adapt_all params) as [|row] eqn:Ea; [discriminate|].
    unfold insert_row in E.
    destruct (existsb _ (get_table db t)); [discriminate|].
    injection E as <-.
    destruct (IH _ _ H) as (rows & Hrows & Hget).
    exists (row :: rows). split; [now constructor|].
    rewrite Hget, get_set_table, <- app_assoc. reflexivity.
Qed.

(** C6. Every creating function other than [create_payment_requests1] reads
    the clock exactly once and writes that single reading into both
    [date_created] and [date_updated] of every row of the batch;
    [create_payment_requests1] does not read the clock and writes each
    entry's own [date_created] into both columns of its row.
    ([create_wallet_datas1] does so whenever it raises nothing.)  When the
    writer runs such an operation with success, the rows it adds to the table
    carry those same two timestamps. *)
Theorem creation_timestamps :
  (forall entries w, creates_with_one_timestamp create_accounts1 Accounts entries w)
  /\ (forall entries w,
        creates_with_one_timestamp create_keys1 KeyInstances entries w)
  /\ (forall entries w,
        creates_with_one_timestamp create_master_keys1 MasterKeys entries w)
  /\ (forall entries w,
        creates_with_one_timestamp
          create_transaction_outputs1 TransactionOutputs entries w)
  /\ (forall entries w,
        Forall (fun e => is_str (key e) = true
                         /\ is_raise (json_dumps (value e)) = false) entries ->
        creates_with_one_timestamp create_wallet_datas1 WalletData entries w)
  /\ (forall entries w,
        exists datas,
          create_payment_requests1 entries w =
            (Ok (next_future w),
             posted w {| job_query := INSERT_INTO PaymentRequests;
                         job_datas := datas |})
          /\ Forall2 (fun e row => stamped PaymentRequests (pr_date_created e) row)
                     entries datas)
  /\ (forall t datas db db',
        run_job db {| job_query := INSERT_INTO t; job_datas := datas |} = Ok db' ->
        exists rows,
          get_table db' t = get_table db t ++ rows
          /\ Forall2
               (fun params row =>
                  forall ts, stamped t ts params ->
                    nth (date_created_col t) row SqlNull = SqlInt ts
                    /\ nth (date_updated_col t) row SqlNull = SqlInt ts)
               datas rows).
Proof.
  split; [|split; [|split; [|split; [|split; [|split]]]]].
  - intros entries w.
    exists (map (fun t => AccountRow1_tuple t ++ [PyInt (now w); PyInt (now w)])
                entries).
    split; [reflexivity|]. split; [apply length_map|].
    apply Forall_map_intro. intros a. repeat split.
  - intros entries w.
    exists (map (fun t => KeyInstanceRow1_tuple t ++ [PyInt (now w); PyInt (now w)])
                entries).
    split; [reflexivity|]. split; [apply length_map|].
    apply Forall_map_intro. intros a. repeat split.
  - intros entries w.
    exists (map (fun t => MasterKeyRow1_tuple t ++ [PyInt (now w); PyInt (now w)])
                entries).
    split; [reflexivity|]. split; [apply length_map|].
    apply Forall_map_intro. intros a. repeat split.
  - intros entries w.
    exists (map (fun t => TransactionOutputRow1_tuple t
                          ++ [PyInt (now w); PyInt (now w)])
                entries).
    split; [reflexivity|]. split; [apply length_map|].
    apply Forall_map_intro. intros a. repeat split.
  - intros entries w Hok.
    destruct (for_each_wallet_rows (now w) entries Hok) as (rows & Hr & Hl & Hs).
    exists rows. rewrite create_wallet_datas1_unfold. cbv zeta.
    fold (now w). rewrite Hr. repeat split; assumption.
  - intros entries w.
    exists (map (fun t => PaymentRequestRow1_tuple t
                          ++ [last (PaymentRequestRow1_tuple t) PyNone])
                entries).
    split; [reflexivity|].
    induction entries as [|e l IH]; cbn; constructor; [repeat split | exact IH].
  - intros t datas db db' Hrun.
    destruct (executemany_insert t datas db db' Hrun) as (rows & Hrows & Hget).
    exists rows. split; [exact Hget|].
    eapply Forall2_impl; [|exact Hrows].
    intros params row Ha ts (_ & Hc & Hu).
    split.
    + exact (adapt_all_nth _ _ _ _ Ha Hc).
    + exact (adapt_all_nth _ _ _ _ Ha Hu).
Qed.

Lemma creation_timestamps_witness :
  creates_with_one_timestamp create_wallet_datas1 WalletData
    [sample_wallet_entry] (world_at 1600000000 empty_database)
  /\ creates_with_one_timestamp create_accounts1 Accounts
       [sample_account; sample_account] (world_at 1600000000 empty_database).
Proof.
  split.
  - apply (proj1 (proj2 (proj2 (proj2 (proj2 creation_timestamps))))).
    repeat constructor.
  - apply (proj1 creation_timestamps).
Defined.

(** ** Wallet data: reading and updating *)










(** ** The writer *)

Section Writer.

Lemma split_snoc {A} (h : list A) (e : A) (h1 : list A) (x : A) (h2 : list A) :
  h ++ [e] = h1 ++ x :: h2 ->
  (h2 = [] /\ h1 = h /\ x = e)
  \/ (exists h2', h2 = h2' ++ [e] /\ h = h1 ++ x :: h2').
Proof.
  destruct h2 as [|y h2' _] using rev_ind; intros H.
  - apply app_inj_tail in H. left. intuition.
  - right. exists h2'. split.
    + f_equal. change (h1 ++ x :: h2' ++ [y]) with (h1 ++ (x :: h2') ++ [y]) in H.
      rewrite app_assoc in H. apply app_inj_tail in H. destruct H as [_ H].
      now rewrite H.
    + change (h1 ++ x :: h2' ++ [y]) with (h1 ++ (x :: h2') ++ [y]) in H.
      rewrite app_assoc in H. apply app_inj_tail in H. tauto.
Qed.

Lemma writer_inv_new (db : Database) : writer_inv (new_context db).
Proof.
  constructor; cbn.
  - lia.
  - reflexivity.
  - intros; discriminate.
  - intros i Hi. lia.
  - intros i [].
  - intros i. split; [intros []|lia].
  - intros h1 h2 j H. destruct h1; discriminate.
  - intros h1 h2 j H. destruct h1; discriminate.
  - intros h1 h2 i o H. destruct h1; discriminate.
Qed.

Lemma writer_inv_post (ctx : DatabaseContext) (j : Job) :
  writer_inv ctx -> writer_inv (snd (post_to_thread ctx j)).
Proof.
  intros I. destruct I.
  assert (Hb : begun (snd (post_to_thread ctx j)) = begun ctx).
  { unfold begun. cbn [post_to_thread snd pending accepted].
    rewrite length_app. cbn [List.length]. lia. }
  constructor; rewrite ?Hb; cbn [post_to_thread snd pending running accepted
                                   history store].
  - rewrite length_app. cbn. lia.
  - rewrite map_app, length_app, seq_app, inv_pending0. cbn.
    do 3 f_equal. unfold begun. lia.
  - intros id j' Hr. destruct (inv_running0 id j' Hr) as [H1 H2].
    split; [exact H1|]. apply in_or_app. now left.
  - intros i Hi. destruct (inv_done0 i Hi) as [H|[o H]]; [now left|].
    right. exists o. apply in_or_app. now left.
  - intros i Hi. apply in_app_or in Hi. destruct Hi as [Hi|[Hi|[]]].
    + now apply inv_began0.
    + discriminate.
  - intros i. rewrite in_app_iff, inv_accepted0. cbn. split.
    + intros [H|[H|[]]]; [lia|]. injection H as H. lia.
    + intros H. destruct (Nat.eq_dec i (accepted ctx)); [subst; auto|].
      left. lia.
  - intros h1 h2 k Hs i Hi. apply split_snoc in Hs.
    destruct Hs as [(_ & -> & Hx)|(h2' & _ & Hs)].
    + injection Hx as ->. now apply inv_accepted0.
    + eapply inv_accept_order0; eauto.
  - intros h1 h2 k Hs. apply split_snoc in Hs.
    destruct Hs as [(_ & _ & Hx)|(h2' & _ & Hs)]; [discriminate|].
    eapply inv_begin_order0; eauto.
  - intros h1 h2 i o Hs. apply split_snoc in Hs.
    destruct Hs as [(_ & _ & Hx)|(h2' & _ & Hs)]; [discriminate|].
    eapply inv_finish_order0; eauto.
Qed.

Lemma writer_inv_begin (ctx ctx' : DatabaseContext) :
  writer_inv ctx -> writer_begin ctx = Some ctx' -> writer_inv ctx'.
Proof.
  intros I Hstep. destruct I. unfold writer_begin in Hstep.
  destruct (running ctx) as [|] eqn:Hrun; [discriminate|].
  destruct (pending ctx) as [|[id j] q] eqn:Hq; [discriminate|].
  injection Hstep as <-.
  cbn [List.length map] in *.
  assert (Hid : id = begun ctx /\ map fst q = seq (S (begun ctx)) (List.length q)).
  { cbn in inv_pending0. injection inv_pending0 as H1 H2. auto. }
  destruct Hid as [Hid Hseq].
  assert (Hb : begun ctx = (accepted ctx - S (List.length q))%nat).
  { unfold begun. now rewrite Hq. }
  assert (Hfin : forall i, (i < begun ctx)%nat ->
                           exists o, In (Finished i o) (history ctx)).
  { intros i Hi. destruct (inv_done0 i Hi) as [[? ?]|H]; [discriminate|exact H]. }
  constructor; unfold begun; cbn [pending running accepted history store].
  - lia.
  - rewrite Hseq. f_equal. lia.
  - intros id' j' Hr. injection Hr as <- <-. split; [lia|].
    apply in_or_app. right. now left.
  - intros i Hi. destruct (Nat.eq_dec i id) as [->|Hne].
    + left. eauto.
    + right. destruct (Hfin i) as [o Ho]; [lia|].
      exists o. apply in_or_app. now left.
  - intros i Hi. apply in_app_or in Hi. destruct Hi as [Hi|[Hi|[]]].
    + apply inv_began0 in Hi. lia.
    + injection Hi as <-. lia.
  - intros i. rewrite in_app_iff, inv_accepted0. cbn. split.
    + intros [H|[H|[]]]; [lia|discriminate].
    + intros H. now left.
  - intros h1 h2 k Hs i Hi. apply split_snoc in Hs.
    destruct Hs as [(_ & _ & Hx)|(h2' & _ & Hs)]; [discriminate|].
    eapply inv_accept_order0; eauto.
  - intros h1 h2 k Hs. apply split_snoc in Hs.
    destruct Hs as [(_ & -> & Hx)|(h2' & _ & Hs)].
    + injection Hx as ->. split; [|split].
      * apply inv_accepted0. lia.
      * intros i Hi. apply Hfin. lia.
      * intros i Hi. apply Hfin. now apply inv_began0.
    + eapply inv_begin_order0; eauto.
  - intros h1 h2 i o Hs. apply split_snoc in Hs.
    destruct Hs as [(_ & _ & Hx)|(h2' & _ & Hs)]; [discriminate|].
    eapply inv_finish_order0; eauto.
Qed.

Lemma writer_inv_end (ctx ctx' : DatabaseContext) :
  writer_inv ctx -> writer_end ctx = Some ctx' -> writer_inv ctx'.
Proof.
  intros I Hstep. destruct I. unfold writer_end in Hstep.
  destruct (running ctx) as [[id j]|] eqn:Hrun; [|discriminate].
  destruct (inv_running0 id j eq_refl) as [Hid Hbegan].
  assert (exists o db',
             ctx' = {| store := db'; pending := pending ctx; running := None;
                       accepted := accepted ctx;
                       history := history ctx ++ [Finished id o] |})
    as (o & db' & ->).
  { destruct (run_job (store ctx) j); injection Hstep as <-; eauto. }
  clear Hstep.
  constructor; unfold begun; cbn [pending running accepted history store];
    fold (begun ctx).
  - exact inv_le0.
  - exact inv_pending0.
  - intros; discriminate.
  - intros i Hi. right. destruct (inv_done0 i Hi) as [[j' Hr]|[o' Ho]].
    + injection Hr as <- <-. exists o. apply in_or_app. right. now left.
    + exists o'. apply in_or_app. now left.
  - intros i Hi. apply in_app_or in Hi. destruct Hi as [Hi|[Hi|[]]].
    + now apply inv_began0.
    + discriminate.
  - intros i. rewrite in_app_iff, inv_accepted0. cbn. split.
    + intros [H|[H|[]]]; [lia|discriminate].
    + intros H. now left.
  - intros h1 h2 k Hs i Hi. apply split_snoc in Hs.
    destruct Hs as [(_ & _ & Hx)|(h2' & _ & Hs)]; [discriminate|].
    eapply inv_accept_order0; eauto.
  - intros h1 h2 k Hs. apply split_snoc in Hs.
    destruct Hs as [(_ & _ & Hx)|(h2' & _ & Hs)]; [discriminate|].
    eapply inv_begin_order0; eauto.
  - intros h1 h2 i o' Hs. apply split_snoc in Hs.
    destruct Hs as [(_ & -> & Hx)|(h2' & _ & Hs)].
    + injection Hx as -> ->. exact Hbegan.
    + eapply inv_finish_order0; eauto.
Qed.

Lemma writer_inv_reachable (db : Database) (ctx : DatabaseContext) :
  reachable db ctx -> writer_inv ctx.
Proof.
  induction 1 as [|ctx ctx' _ IH Hstep].
  - apply writer_inv_new.
  - destruct Hstep.
    + now apply writer_inv_post.
    + eapply writer_inv_begin; eauto.
    + eapply writer_inv_end; eauto.
Qed.

End Writer.

Section WriterProgress.

Lemma writer_step_progress (ctx : DatabaseContext) :
  (0 < load ctx)%nat ->
  exists ctx',
    writer_step ctx = Some ctx'
    /\ S (load ctx') = load ctx
    /\ ctx_step ctx ctx'
    /\ accepted ctx' = accepted ctx
    /\ exists e, history ctx' = history ctx ++ [e].
Proof.
  unfold load, writer_step. intros Hpos.
  destruct (running ctx) as [[id j]|] eqn:Hrun.
  - assert (exists c, writer_end ctx = Some c) as [c Hc].
    { unfold writer_end. rewrite Hrun. destruct (run_job _ _); eauto. }
    exists c. split; [exact Hc|].
    split; [|split; [now apply step_end|]].
    + unfold writer_end in Hc. rewrite Hrun in Hc.
      destruct (run_job _ _); injection Hc as <-; cbn; lia.
    + unfold writer_end in Hc. rewrite Hrun in Hc.
      destruct (run_job _ _); injection Hc as <-; cbn; eauto.
  - destruct (pending ctx) as [|[id j] q] eqn:Hq; [cbn in Hpos; lia|].
    assert (Hb : writer_begin ctx =
                 Some {| store := store ctx; pending := q;
                         running := Some (id, j); accepted := accepted ctx;
                         history := history ctx ++ [Began id] |}).
    { unfold writer_begin. now rewrite Hrun, Hq. }
    eexists. split; [exact Hb|].
    split; [cbn; lia|]. split; [now apply step_begin|]. cbn. eauto.
Qed.

Lemma writer_run_idle (db : Database) (n : nat) :
  forall ctx, reachable db ctx -> (load ctx <= n)%nat ->
    reachable db (writer_run n ctx)
    /\ load (writer_run n ctx) = 0%nat
    /\ accepted (writer_run n ctx) = accepted ctx
    /\ exists h, history (writer_run n ctx) = history ctx ++ h.
Proof.
  induction n as [|n IH]; intros ctx Hr Hl.
  - cbn [writer_run]. repeat split; [exact Hr|lia|].
    exists []. now rewrite app_nil_r.
  - cbn [writer_run]. destruct (Nat.eq_dec (load ctx) 0) as [Hz|Hnz].
    + assert (writer_step ctx = None) as ->.
      { unfold load in Hz. unfold writer_step, writer_begin.
        destruct (running ctx); [lia|].
        destruct (pending ctx); [reflexivity|cbn in Hz; lia]. }
      repeat split; [exact Hr|exact Hz|]. exists []. now rewrite app_nil_r.
    + destruct (writer_step_progress ctx) as (c & Hc & Hload & Hstep & Hacc & e & He);
        [lia|].
      rewrite Hc. destruct (IH c) as (H1 & H2 & H3 & h & H4).
      * eapply reach_step; eauto.
      * lia.
      * repeat split; [exact H1|exact H2|congruence|].
        exists (e :: h). rewrite H4, He, <- app_assoc. reflexivity.
Qed.

End WriterProgress.

(** C9. In every context the system can reach: (1) when an operation that
    was accepted after another begins, the earlier one has already begun and
    finished; (2) when an operation begins, every operation begun before it
    has finished, so no two run at once; (3) left to run, the writer finishes
    every accepted operation, whether the ones before it succeeded or
    failed. *)
Theorem writer_fifo (db : Database) (ctx : DatabaseContext) :
  reachable db ctx ->
  (forall i j a1 a2 a3 h1 h2,
      history ctx = a1 ++ Accepted i :: a2 ++ Accepted j :: a3 ->
      history ctx = h1 ++ Began j :: h2 ->
      exists o b1 b2 b3, h1 = b1 ++ Began i :: b2 ++ Finished i o :: b3)
  /\ (forall i j h1 h2,
        history ctx = h1 ++ Began j :: h2 ->
        In (Began i) h1 -> exists o, In (Finished i o) h1)
  /\ (reachable db (drain ctx)
      /\ pending (drain ctx) = []
      /\ running (drain ctx) = None
      /\ forall i, In (Accepted i) (history ctx) ->
                   exists o, In (Finished i o) (history (drain ctx))).
Proof.
  intros Hr. pose proof (writer_inv_reachable db ctx Hr) as I.
  split; [|split].
  - intros i j a1 a2 a3 h1 h2 Ha Hb.
    assert (Hij : (i < j)%nat).
    { apply (inv_accept_order ctx I (a1 ++ Accepted i :: a2) a3 j).
      - rewrite Ha, <- app_assoc. reflexivity.
      - apply in_or_app. right. now left. }
    destruct (inv_begin_order ctx I h1 h2 j Hb) as (_ & Hfin & _).
    destruct (Hfin i Hij) as [o Ho].
    apply in_split in Ho. destruct Ho as (x & b3 & ->).
    assert (Hbi : In (Began i) x).
    { apply (inv_finish_order ctx I x (b3 ++ Began j :: h2) i o).
      rewrite Hb, <- app_assoc. reflexivity. }
    apply in_split in Hbi. destruct Hbi as (b1 & b2 & ->).
    exists o, b1, b2, b3. rewrite <- app_assoc. reflexivity.
  - intros i j h1 h2 Hb Hi.
    destruct (inv_begin_order ctx I h1 h2 j Hb) as (_ & _ & Hex). now apply Hex.
  - destruct (writer_run_idle db (2 * List.length (pending ctx) + 1) ctx Hr)
      as (H1 & H2 & H3 & h & H4).
    { unfold load. destruct (running ctx); lia. }
    fold (drain ctx) in H1, H2, H3, H4.
    assert (Hp : pending (drain ctx) = [] /\ running (drain ctx) = None).
    { unfold load in H2. destruct (running (drain ctx)); [lia|].
      destruct (pending (drain ctx)); [auto|cbn in H2; lia]. }
    destruct Hp as [Hp Hn]. repeat split; try assumption.
    intros i Hi. apply (inv_accepted ctx I) in Hi.
    pose proof (writer_inv_reachable db _ H1) as I'.
    destruct (inv_done _ I' i) as [[j Hj]|Ho].
    + unfold begun. rewrite Hp, H3. cbn. lia.
    + congruence.
    + exact Ho.
Qed.

Lemma two_posts_reachable : reachable empty_database two_posts.
Proof.
  apply writer_run_idle; [|unfold load; cbn; lia].
  eapply reach_step; [eapply reach_step; [apply reach_new|]|]; apply step_post.
Qed.

Lemma writer_fifo_witness :
  history two_posts =
    [Accepted 0; Accepted 1;
     Began 0; Finished 0 (Failed (IntegrityError "UNIQUE constraint failed"));
     Began 1; Finished 1 Succeeded]
  /\ (exists o b1 b2 b3,
        [Accepted 0; Accepted 1; Began 0;
         Finished 0 (Failed (IntegrityError "UNIQUE constraint failed"))]
        = b1 ++ Began 0%nat :: b2 ++ Finished 0%nat o :: b3).
Proof.
  split; [reflexivity|].
  apply (proj1 (writer_fifo empty_database two_posts two_posts_reachable)
           0%nat 1%nat [] [] 
           [Began 0; Finished 0 (Failed (IntegrityError "UNIQUE constraint failed"));
            Began 1; Finished 1 Succeeded]
           [Accepted 0; Accepted 1; Began 0;
            Finished 0 (Failed (IntegrityError "UNIQUE constraint failed"))]
           [Finished 1 Succeeded]); reflexivity.
Defined.

(** ** The JSON codec *)

Local Open Scope N_scope.

Section Strings.










End Strings.

Section Numbers.





Lemma nzhead_not_D0 (u u' : Decimal.uint) : Decimal.nzhead u <> Decimal.D0 u'.
Proof. induction u; cbn; try discriminate. exact IHu. Qed.

Lemma pos_to_uint_head (p : positive) :
  exists c t,
    uint_chars (Pos.to_uint p) = c :: t
    /\ is_digit c = true /\ (c =? Ch.ZERO) = false.
Proof.
  pose proof (DecimalPos.Unsigned.to_of (Pos.to_uint p)) as Hn.
  rewrite DecimalPos.Unsigned.of_to in Hn. cbn [N.to_uint] in Hn.
  pose proof (DecimalPos.Unsigned.to_uint_nonnil p) as Hnil.
  destruct (Pos.to_uint p) as [|u|u|u|u|u|u|u|u|u|u] eqn:E;
    try (eexists _, _; split; [reflexivity|split; reflexivity]).
  - contradiction.
  - exfalso. unfold Decimal.unorm in Hn. cbn [Decimal.nzhead] in Hn.
    destruct (Decimal.nzhead u) eqn:En;
      try (rewrite <- En in Hn; symmetry in Hn; now apply nzhead_not_D0 in Hn).
    injection Hn as Hn. subst u.
    apply (DecimalPos.Unsigned.to_uint_nonzero p). exact E.
Qed.




End Numbers.

(** *** Values *)

Section Dicts.





End Dicts.

Section Values.






Lemma int_repr_head (z : Z) :
  exists c t, int_repr z = c :: t /\ (is_digit c = true \/ c = Ch.MINUS).
Proof.
  destruct z as [|p|p]; cbn [int_repr].
  - eexists _, _. split; [reflexivity|]. now left.
  - destruct (pos_to_uint_head p) as (c & t & Ht & Hd & _).
    exists c, t. auto.
  - eexists _, _. split; [reflexivity|]. now right.
Qed.










Lemma parse_items_unfold (fuel : nat) (s : pystr) :
  parse_items (S fuel) s =
    match scan_once fuel s with
    | inl e => Raise e
    | inr (value, s1) =>
        match skip_ws s1 with
        | c :: r =>
            if c =? Ch.RBRACKET then Ok ([value], r)
            else if c =? Ch.COMMA then
              match parse_items fuel (skip_ws r) with
              | inl e => Raise e
              | inr (values, rest) => Ok (value :: values, rest)
              end
            else Raise (JSONDecodeError "Expecting ',' delimiter")
        | [] => Raise (JSONDecodeError "Expecting ',' delimiter")
        end
    end.
Proof. reflexivity. Qed.




End Values.

Section RoundTrip.






End RoundTrip.

(** ** The decoder never runs out of fuel *)

Section Fuel.

Local Open Scope nat_scope.

Lemma skip_ws_length (s : pystr) : List.length (skip_ws s) <= List.length s.
Proof.
  induction s as [|c s IH]; [apply Nat.le_refl|].
  cbn [skip_ws]. destruct (is_ws c); cbn [List.length]; lia.
Qed.

Lemma cons_char_ok (c : N) (R : result (pystr * pystr)) (k rest : pystr) :
  cons_char c R = Ok (k, rest) -> exists k', R = Ok (k', rest).
Proof.
  destruct R as [e|[k' rest']]; [discriminate|].
  intros H. injection H as _ <-. now exists k'.
Qed.

Lemma scanstring_shorter (n : nat) :
  forall s k r,
    List.length s <= n -> scanstring s = Ok (k, r) ->
    List.length r < List.length s.
Proof.
  induction n as [|n IH]; intros s k r Hl H.
  - destruct s; [discriminate|cbn in Hl; lia].
  - destruct s as [|c s]; [discriminate|]. cbn [scanstring] in H.
    repeat match type of H with
           | context [if ?b then _ else _] => destruct b
           | context [match ?x with _ => _ end] => destruct x
           end;
      try discriminate;
      try (injection H as _ <-; cbn [List.length]; lia);
      apply cons_char_ok in H; destruct H as [k' H];
      apply IH in H; cbn [List.length] in *; lia.
Qed.

Lemma cons_char_raise (c : N) (R : result (pystr * pystr)) (e : PyExc) :
  cons_char c R = Raise e -> R = Raise e.
Proof. destruct R as [e'|[k' rest']]; [intros H; exact H|discriminate]. Qed.

Lemma scanstring_not_fuel (n : nat) :
  forall s, List.length s <= n -> scanstring s <> Raise out_of_fuel.
Proof.
  induction n as [|n IH]; intros s Hl H.
  - destruct s; [discriminate|cbn in Hl; lia].
  - destruct s as [|c s]; [discriminate|]. cbn [scanstring] in H.
    repeat match type of H with
           | context [if ?b then _ else _] => destruct b
           | context [match ?x with _ => _ end] => destruct x
           end;
      try discriminate;
      apply cons_char_raise in H; revert H; apply IH;
      cbn [List.length] in *; lia.
Qed.

Lemma scan_digits_length (s : pystr) :
  forall d r, scan_digits s = (d, r) -> List.length r <= List.length s.
Proof.
  induction s as [|c s IH]; intros d r H.
  - injection H as _ <-. apply Nat.le_refl.
  - cbn [scan_digits] in H. destruct (scan_digits s) as [d' r'].
    specialize (IH d' r' eq_refl).
    repeat match type of H with
           | context [if ?b then _ else _] => destruct b
           end;
      injection H as _ <-; cbn [List.length]; lia.
Qed.

Lemma scan_integer_shorter (s : pystr) (n : N) (r : pystr) :
  scan_integer s = Some (n, r) -> List.length r < List.length s.
Proof.
  destruct s as [|c s]; [discriminate|]. unfold scan_integer.
  destruct (c =? Ch.ZERO)%N; [intros H; injection H as _ <-; cbn; lia|].
  destruct (is_digit c) eqn:Hd; [|discriminate].
  destruct (scan_digits (c :: s)) as [d r'] eqn:Es.
  intros H. injection H as _ <-.
  cbn [scan_digits] in Es. destruct (scan_digits s) as [d0 r0] eqn:E0.
  apply scan_digits_length in E0.
  unfold is_digit, Ch.ZERO, Ch.NINE in Hd. apply Bool.andb_true_iff in Hd.
  destruct Hd as [H1 H2]. apply N.leb_le in H1, H2.
  repeat match type of Es with
         | context [if (?a =? ?b)%N then _ else _] =>
             destruct (N.eqb_spec a b)
         end;
    injection Es as _ <-; cbn [List.length]; lia.
Qed.

Lemma scan_number_shorter (s : pystr) (v : PyVal) (r : pystr) :
  scan_number s = Ok (v, r) -> List.length r < List.length s.
Proof.
  unfold scan_number.
  destruct s as [|c s]; [discriminate|].
  destruct (c =? Ch.MINUS)%N.
  - destruct (scan_integer s) as [[n rest]|] eqn:E.
    + apply scan_integer_shorter in E.
      destruct (float_follows rest); [discriminate|].
      intros H. injection H as _ <-. cbn [List.length]. lia.
    + destruct (_ || _ || _); discriminate.
  - destruct (scan_integer (c :: s)) as [[n rest]|] eqn:E.
    + apply scan_integer_shorter in E.
      destruct (float_follows rest); [discriminate|].
      intros H. injection H as _ <-. exact E.
    + destruct (_ || _ || _); discriminate.
Qed.

Lemma scan_number_not_fuel (s : pystr) : scan_number s <> Raise out_of_fuel.
Proof.
  unfold scan_number.
  destruct (match s with
            | [] => (false, s)
            | c :: r => if (c =? Ch.MINUS)%N then (true, r) else (false, s)
            end) as [neg body].
  destruct (scan_integer body) as [[n rest]|].
  - destruct (float_follows rest); discriminate.
  - destruct (_ || _ || _); discriminate.
Qed.

Lemma skip_ws_cons (s : pystr) (c : N) (r : pystr) :
  skip_ws s = c :: r -> List.length r < List.length s.
Proof.
  intros H. pose proof (skip_ws_length s) as Hl. rewrite H in Hl.
  cbn [List.length] in Hl. lia.
Qed.

(** Whatever is read, at least one character is used up. *)
Lemma scan_shorter (fuel : nat) :
  (forall s v r, scan_once fuel s = Ok (v, r) -> List.length r < List.length s)
  /\ (forall s vs r,
        parse_items fuel s = Ok (vs, r) -> List.length r < List.length s)
  /\ (forall s kvs r,
        parse_pairs fuel s = Ok (kvs, r) -> List.length r < List.length s).
Proof.
  induction fuel as [|fuel (IHs & IHi & IHp)];
    [repeat split; intros; discriminate|].
  split; [|split].
  - intros s v r H. destruct s as [|c r0]; [discriminate|].
    cbn [scan_once] in H.
    destruct (c =? Ch.QUOTE)%N.
    { destruct (scanstring r0) as [|[k r']] eqn:E; [discriminate|].
      injection H as _ <-. apply (scanstring_shorter _ _ _ _ (Nat.le_refl _)) in E.
      cbn [List.length]. lia. }
    destruct (c =? Ch.LBRACE)%N.
    { cbv zeta in H. destruct (skip_ws r0) as [|c1 r1] eqn:Ew; [discriminate|].
      apply skip_ws_cons in Ew.
      destruct (c1 =? Ch.RBRACE)%N.
      - injection H as _ <-. cbn [List.length]. lia.
      - destruct (parse_pairs fuel (c1 :: r1)) as [|[p rest]] eqn:E; [discriminate|].
        injection H as _ <-. apply IHp in E. cbn [List.length] in *. lia. }
    destruct (c =? Ch.LBRACKET)%N.
    { cbv zeta in H. destruct (skip_ws r0) as [|c1 r1] eqn:Ew; [discriminate|].
      apply skip_ws_cons in Ew.
      destruct (c1 =? Ch.RBRACKET)%N.
      - injection H as _ <-. cbn [List.length]. lia.
      - destruct (parse_items fuel (c1 :: r1)) as [|[p rest]] eqn:E; [discriminate|].
        injection H as _ <-. apply IHi in E. cbn [List.length] in *. lia. }
    destruct (starts_with (lit "null") (c :: r0));
      [injection H as _ <-;
       destruct r0 as [|? [|? [|? [|? ?]]]]; cbn [List.length]; lia|].
    destruct (starts_with (lit "true") (c :: r0));
      [injection H as _ <-;
       destruct r0 as [|? [|? [|? [|? ?]]]]; cbn [List.length]; lia|].
    destruct (starts_with (lit "false") (c :: r0));
      [injection H as _ <-;
       destruct r0 as [|? [|? [|? [|? ?]]]]; cbn [List.length]; lia|].
    now apply scan_number_shorter in H.
  - intros s vs r H. rewrite parse_items_unfold in H.
    destruct (scan_once fuel s) as [|[v s1]] eqn:E; [discriminate|].
    apply IHs in E.
    destruct (skip_ws s1) as [|c r1] eqn:Ew; [discriminate|].
    apply skip_ws_cons in Ew.
    destruct (c =? Ch.RBRACKET)%N; [injection H as _ <-; lia|].
    destruct (c =? Ch.COMMA)%N; [|discriminate].
    destruct (parse_items fuel (skip_ws r1)) as [|[values rest]] eqn:Ei;
      [discriminate|].
    injection H as _ <-. apply IHi in Ei.
    pose proof (skip_ws_length r1). lia.
  - intros s kvs r H. destruct s as [|q r0]; [discriminate|].
    cbn [parse_pairs] in H.
    destruct (q =? Ch.QUOTE)%N; [|discriminate].
    destruct (scanstring r0) as [|[k s1]] eqn:E; [discriminate|].
    apply (scanstring_shorter _ _ _ _ (Nat.le_refl _)) in E.
    destruct (skip_ws s1) as [|c r1] eqn:Ew; [discriminate|].
    apply skip_ws_cons in Ew.
    destruct (c =? Ch.COLON)%N; [|discriminate].
    destruct (scan_once fuel (skip_ws r1)) as [|[v s2]] eqn:Ev; [discriminate|].
    apply IHs in Ev. pose proof (skip_ws_length r1).
    destruct (skip_ws s2) as [|c2 r2] eqn:Ew2; [discriminate|].
    apply skip_ws_cons in Ew2.
    destruct (c2 =? Ch.RBRACE)%N;
      [injection H as _ <-; cbn [List.length]; lia|].
    destruct (c2 =? Ch.COMMA)%N; [|discriminate].
    destruct (parse_pairs fuel (skip_ws r2)) as [|[pairs rest]] eqn:Ep;
      [discriminate|].
    injection H as _ <-. apply IHp in Ep.
    pose proof (skip_ws_length r2). cbn [List.length]. lia.
Qed.

Lemma fuel_suffices (fuel : nat) :
  (forall s, 2 * List.length s + 1 <= fuel ->
             scan_once fuel s <> Raise out_of_fuel)
  /\ (forall s, 2 * List.length s + 2 <= fuel ->
                parse_items fuel s <> Raise out_of_fuel)
  /\ (forall s, 2 * List.length s + 2 <= fuel ->
                parse_pairs fuel s <> Raise out_of_fuel).
Proof.
  induction fuel as [|fuel (IHs & IHi & IHp)];
    [repeat split; intros; lia|].
  destruct (scan_shorter fuel) as (Ss & Si & Sp).
  split; [|split].
  - intros s Hf H. destruct s as [|c r0]; [discriminate|].
    cbn [List.length] in Hf. cbn [scan_once] in H.
    destruct (c =? Ch.QUOTE)%N.
    { destruct (scanstring r0) as [e|[k r']] eqn:E; [|discriminate].
      injection H as ->. revert E.
      apply (scanstring_not_fuel _ _ (Nat.le_refl _)). }
    destruct (c =? Ch.LBRACE)%N.
    { cbv zeta in H. destruct (skip_ws r0) as [|c1 r1] eqn:Ew; [discriminate|].
      pose proof (skip_ws_length r0) as Hw. rewrite Ew in Hw.
      destruct (c1 =? Ch.RBRACE)%N; [discriminate|].
      destruct (parse_pairs fuel (c1 :: r1)) as [e|[p rest]] eqn:E; [|discriminate].
      injection H as ->. revert E. apply IHp. lia. }
    destruct (c =? Ch.LBRACKET)%N.
    { cbv zeta in H. destruct (skip_ws r0) as [|c1 r1] eqn:Ew; [discriminate|].
      pose proof (skip_ws_length r0) as Hw. rewrite Ew in Hw.
      destruct (c1 =? Ch.RBRACKET)%N; [discriminate|].
      destruct (parse_items fuel (c1 :: r1)) as [e|[p rest]] eqn:E; [|discriminate].
      injection H as ->. revert E. apply IHi. lia. }
    destruct (starts_with (lit "null") (c :: r0)); [discriminate|].
    destruct (starts_with (lit "true") (c :: r0)); [discriminate|].
    destruct (starts_with (lit "false") (c :: r0)); [discriminate|].
    revert H. apply scan_number_not_fuel.
  - intros s Hf H. rewrite parse_items_unfold in H.
    destruct (scan_once fuel s) as [e|[v s1]] eqn:E.
    { injection H as ->. revert E. apply IHs. lia. }
    apply Ss in E.
    destruct (skip_ws s1) as [|c r1] eqn:Ew; [discriminate|].
    apply skip_ws_cons in Ew.
    destruct (c =? Ch.RBRACKET)%N; [discriminate|].
    destruct (c =? Ch.COMMA)%N; [|discriminate].
    pose proof (skip_ws_length r1).
    destruct (parse_items fuel (skip_ws r1)) as [e|[values rest]] eqn:Ei;
      [|discriminate].
    injection H as ->. revert Ei. apply IHi. lia.
  - intros s Hf H. destruct s as [|q r0]; [discriminate|].
    cbn [List.length] in Hf. cbn [parse_pairs] in H.
    destruct (q =? Ch.QUOTE)%N; [|discriminate].
    destruct (scanstring r0) as [e|[k s1]] eqn:E.
    { injection H as ->. revert E.
      apply (scanstring_not_fuel _ _ (Nat.le_refl _)). }
    apply (scanstring_shorter _ _ _ _ (Nat.le_refl _)) in E.
    destruct (skip_ws s1) as [|c r1] eqn:Ew; [discriminate|].
    apply skip_ws_cons in Ew.
    destruct (c =? Ch.COLON)%N; [|discriminate].
    pose proof (skip_ws_length r1).
    destruct (scan_once fuel (skip_ws r1)) as [e|[v s2]] eqn:Ev.
    { injection H as ->. revert Ev. apply IHs. lia. }
    apply Ss in Ev.
    destruct (skip_ws s2) as [|c2 r2] eqn:Ew2; [discriminate|].
    apply skip_ws_cons in Ew2.
    destruct (c2 =? Ch.RBRACE)%N; [discriminate|].
    destruct (c2 =? Ch.COMMA)%N; [|discriminate].
    pose proof (skip_ws_length r2).
    destruct (parse_pairs fuel (skip_ws r2)) as [e|[pairs rest]] eqn:Ep;
      [|discriminate].
    injection H as ->. revert Ep. apply IHp. lia.
Qed.

(** [json_loads] gives the decoder more fuel than any text can use: the
    bound on the recursion never shows. *)
Lemma json_loads_fuel (s : pystr) : json_loads s <> Raise out_of_fuel.
Proof.
  unfold json_loads. intros H.
  destruct (scan_once _ (skip_ws s)) as [e|[obj rest]] eqn:E.
  - injection H as ->. revert E. apply fuel_suffices. lia.
  - destruct (skip_ws rest); discriminate.
Qed.

End Fuel.

Local Close Scope N_scope.

(** ** Wallet data: create, then read *)

Section CreateThenRead.





End CreateThenRead.




(** A [dict] keyed by integers comes back keyed by strings. *)
Example int_keys_come_back_as_strings :
  json_dumps (PyDict [(PyInt 1, PyStr (lit "a"))])
  = Ok (lit "{" ++ [Ch.QUOTE] ++ lit "1" ++ [Ch.QUOTE] ++ lit ": "
        ++ [Ch.QUOTE] ++ lit "a" ++ [Ch.QUOTE] ++ lit "}")
  /\ json_loads (lit "{" ++ [Ch.QUOTE] ++ lit "1" ++ [Ch.QUOTE] ++ lit ": "
                 ++ [Ch.QUOTE] ++ lit "a" ++ [Ch.QUOTE] ++ lit "}")
     = Ok (PyDict [(PyStr (lit "1"), PyStr (lit "a"))]).
Proof. vm_compute. split; reflexivity. Qed.

(** A high surrogate followed by a low surrogate comes back as the one code
    point they spell. *)
Example surrogates_come_back_joined :
  json_dumps (PyStr [0xd83d%N; 0xde00%N])
  = Ok (Ch.QUOTE :: lit "\ud83d\ude00" ++ [Ch.QUOTE])
  /\ json_loads (Ch.QUOTE :: lit "\ud83d\ude00" ++ [Ch.QUOTE])
     = Ok (PyStr [0x1f600%N]).
Proof. split; vm_compute; reflexivity. Qed.

(** Creating a key that already has a row fails in the writer, and the read
    returns the old value. *)
Example existing_key_keeps_old_value :
  let w := world_at 1600000000 sample_store in
  let w1 := settle (snd (create_wallet_datas1
                           [{| key := PyStr (lit "seed"); value := PyInt 2 |}] w)) in
  future_outcome (db_context w1) {| future_id := 0 |}
  = Some (Failed (IntegrityError "UNIQUE constraint failed"))
  /\ fst (read_wallet_data1 (PyStr (lit "seed")) w1) = Ok (PyInt 1).
Proof. vm_compute. split; reflexivity. Qed.

(* ================================================================== *)
(** * Further properties *)
(* ================================================================== *)

(** ** Flag masks *)

Lemma land_lor_zero (f a b : Z) :
  Z.land f (Z.lor a b) = 0 <-> Z.land f a = 0 /\ Z.land f b = 0.
Proof.
  rewrite Z.land_lor_distr_r. apply Z.lor_eq_0_iff.
Qed.

(** X1. A flags word of a transaction output meets [FROZEN_MASK] exactly when
    it has [IS_FROZEN] or [USER_SET_FROZEN] set, and the other flags
    ([IS_ALLOCATED], [IS_SPENT], [IS_COINBASE]) never make it meet the
    mask. *)
Theorem frozen_mask_spec (f : Z) :
  (Z.land f TransactionOutputFlag1.FROZEN_MASK <> 0
   <-> Z.land f TransactionOutputFlag1.IS_FROZEN <> 0
       \/ Z.land f TransactionOutputFlag1.USER_SET_FROZEN <> 0)
  /\ Z.land
       (Z.lor f (Z.lor TransactionOutputFlag1.IS_ALLOCATED
                   (Z.lor TransactionOutputFlag1.IS_SPENT
                          TransactionOutputFlag1.IS_COINBASE)))
       TransactionOutputFlag1.FROZEN_MASK
     = Z.land f TransactionOutputFlag1.FROZEN_MASK.
Proof.
  split.
  - unfold TransactionOutputFlag1.FROZEN_MASK. rewrite land_lor_zero.
    destruct (Z.eq_dec (Z.land f TransactionOutputFlag1.IS_FROZEN) 0),
      (Z.eq_dec (Z.land f TransactionOutputFlag1.USER_SET_FROZEN) 0); tauto.
  - apply Z.bits_inj'. intros i Hi.
    unfold TransactionOutputFlag1.FROZEN_MASK, TransactionOutputFlag1.IS_FROZEN,
      TransactionOutputFlag1.USER_SET_FROZEN, TransactionOutputFlag1.IS_ALLOCATED,
      TransactionOutputFlag1.IS_SPENT, TransactionOutputFlag1.IS_COINBASE.
    rewrite !Z.land_spec, !Z.lor_spec, !testbit_single by lia.
    destruct (Z.eqb_spec 1 i), (Z.eqb_spec 2 i), (Z.eqb_spec 4 i),
      (Z.eqb_spec 3 i), (Z.eqb_spec 8 i); try lia;
      destruct (Z.testbit f i); reflexivity.
Qed.

(** ** [TxData1]: equality and [repr] *)

Lemma opt_int_eqb_eq (x y : option Z) : opt_int_eqb x y = true <-> x = y.
Proof.
  destruct x as [x|], y as [y|]; cbn; rewrite ?Z.eqb_eq; split; congruence.
Qed.

Lemma TxData1_equal_iff (a b : TxData1) :
  TxData1_equal a b
  <-> height a = height b /\ position a = position b /\ fee a = fee b.
Proof.
  unfold TxData1_equal. cbn. rewrite <- !opt_int_eqb_eq. split.
  - intros H. injection H as H. apply Bool.andb_true_iff in H.
    destruct H as [H H3]. apply Bool.andb_true_iff in H. tauto.
  - intros (H1 & H2 & H3). rewrite H1, H2, H3. reflexivity.
Qed.

(** X2. [TxData1.__eq__] is an equivalence on [TxData1] values: every value
    equals itself, equality does not depend on the side the operands are on,
    and it chains. *)
Theorem TxData1_eq_equivalence :
  (forall a, TxData1_equal a a)
  /\ (forall a b, TxData1_equal a b -> TxData1_equal b a)
  /\ (forall a b c, TxData1_equal a b -> TxData1_equal b c -> TxData1_equal a c).
Proof.
  split; [|split].
  - intros a. apply TxData1_equal_iff. auto.
  - intros a b H. apply TxData1_equal_iff in H. apply TxData1_equal_iff.
    intuition congruence.
  - intros a b c H1 H2. apply TxData1_equal_iff in H1, H2.
    apply TxData1_equal_iff. intuition congruence.
Qed.

Lemma TxData1_eq_equivalence_witness :
  TxData1_equal
    {| height := Some 5; position := None; fee := Some 120;
       date_added := Some 9; date_updated := None |} sample_metadata.
Proof.
  apply (proj1 (proj2 TxData1_eq_equivalence) sample_metadata).
  reflexivity.
Defined.

Section Repr.

Local Open Scope N_scope.

Lemma uint_chars_inj (u u' : Decimal.uint) :
  uint_chars u = uint_chars u' -> u = u'.
Proof.
  revert u'. induction u; intros u' H; destruct u'; try discriminate;
    try reflexivity; injection H as H; f_equal; now apply IHu.
Qed.

Lemma uint_chars_digits (u : Decimal.uint) : Forall (fun c => is_digit c = true) (uint_chars u).
Proof. induction u; cbn [uint_chars]; constructor; auto. Qed.

Lemma int_repr_inj (z z' : Z) : int_repr z = int_repr z' -> z = z'.
Proof.
  assert (Hzero : forall p, uint_chars (Pos.to_uint p) <> [Ch.ZERO]).
  { intros p H. apply (DecimalPos.Unsigned.to_uint_nonzero p).
    apply uint_chars_inj. exact H. }
  assert (Hminus : forall p t, uint_chars (Pos.to_uint p) <> Ch.MINUS :: t).
  { intros p t H. destruct (pos_to_uint_head p) as (c & t' & Ht & Hd & _).
    rewrite Ht in H. injection H as Hc _. subst c. discriminate. }
  destruct z as [|p|p], z' as [|q|q]; cbn [int_repr]; intros H;
    try reflexivity.
  - symmetry in H. now apply Hzero in H.
  - discriminate.
  - now apply Hzero in H.
  - apply uint_chars_inj, DecimalPos.Unsigned.to_uint_inj in H. now subst.
  - now apply Hminus in H.
  - discriminate.
  - symmetry in H. now apply Hminus in H.
  - injection H as H.
    apply uint_chars_inj, DecimalPos.Unsigned.to_uint_inj in H. now subst.
Qed.

Lemma str_opt_int_inj (x y : option Z) : str_opt_int x = str_opt_int y -> x = y.
Proof.
  assert (Hnone : forall z, int_repr z <> lit "None").
  { intros z H. destruct (int_repr_head z) as (c & t & Ht & Hc).
    rewrite Ht in H. injection H as Hn _. subst c.
    destruct Hc; discriminate. }
  destruct x as [x|], y as [y|]; cbn [str_opt_int]; intros H.
  - f_equal. now apply int_repr_inj.
  - now apply Hnone in H.
  - symmetry in H. now apply Hnone in H.
  - reflexivity.
Qed.

Lemma str_opt_int_chars (o : option Z) : Forall field_char (str_opt_int o).
Proof.
  assert (Hd : forall c, is_digit c = true -> field_char c).
  { intros c H. unfold is_digit, Ch.ZERO, Ch.NINE in H.
    apply Bool.andb_true_iff in H. destruct H as [H1 H2].
    apply N.leb_le in H1, H2. unfold field_char, Ch.COMMA. lia. }
  assert (Hu : forall u, Forall field_char (uint_chars u)).
  { intros u. eapply Forall_impl; [exact Hd|apply uint_chars_digits]. }
  destruct o as [[|p|p]|]; cbn [str_opt_int int_repr].
  - repeat constructor; discriminate.
  - apply Hu.
  - constructor; [split; discriminate|apply Hu].
  - repeat constructor; discriminate.
Qed.

Lemma split_at_end (e : N) (a b r r' : pystr) :
  Forall (fun c => c <> e) a -> Forall (fun c => c <> e) b ->
  a ++ e :: r = b ++ e :: r' -> a = b /\ r = r'.
Proof.
  intros Ha. revert b. induction Ha as [|x a Hx _ IH]; intros b Hb H.
  - destruct Hb as [|y b Hy _]; cbn in H.
    + injection H as ->. auto.
    + injection H as <- _. contradiction.
  - destruct Hb as [|y b Hy Hb]; cbn in H.
    + injection H as -> _. contradiction.
    + injection H as -> H. destruct (IH b Hb H) as [-> ->]. auto.
Qed.

Lemma field_then_comma (x y : option Z) (r r' : pystr) :
  str_opt_int x ++ Ch.COMMA :: r = str_opt_int y ++ Ch.COMMA :: r' ->
  x = y /\ r = r'.
Proof.
  intros H. apply split_at_end in H.
  - destruct H as [H ->]. split; [now apply str_opt_int_inj|reflexivity].
  - eapply Forall_impl; [|apply str_opt_int_chars]. now intros c [? _].
  - eapply Forall_impl; [|apply str_opt_int_chars]. now intros c [? _].
Qed.

End Repr.

(** X3. [TxData1.__repr__] tells all five fields apart: two values with the
    same [repr] agree on [height], [position], [fee], [date_added] and
    [date_updated], so they are also equal for [__eq__]; the converse fails,
    since [__eq__] does not look at the two dates. *)
Theorem TxData1_repr_injective :
  (forall a b : TxData1, TxData1_repr a = TxData1_repr b -> a = b)
  /\ (forall a b : TxData1,
        TxData1_repr a = TxData1_repr b -> TxData1_equal a b)
  /\ (exists a b : TxData1,
        TxData1_equal a b /\ TxData1_repr a <> TxData1_repr b).
Proof.
  assert (Hinj : forall a b : TxData1, TxData1_repr a = TxData1_repr b -> a = b).
  { intros [h p f d u] [h' p' f' d' u']. unfold TxData1_repr.
    cbn [height position fee date_added date_updated]. intros H.
    apply app_inv_head in H.
    change (lit ",position=") with (Ch.COMMA :: lit "position=") in H.
    change (lit ",fee=") with (Ch.COMMA :: lit "fee=") in H.
    change (lit ",date_added=") with (Ch.COMMA :: lit "date_added=") in H.
    change (lit ",date_updated=") with (Ch.COMMA :: lit "date_updated=") in H.
    cbn [app] in H.
    apply field_then_comma in H. destruct H as [-> H]. apply app_inv_head in H.
    apply field_then_comma in H. destruct H as [-> H]. apply app_inv_head in H.
    apply field_then_comma in H. destruct H as [-> H]. apply app_inv_head in H.
    apply field_then_comma in H. destruct H as [-> H]. apply app_inv_head in H.
    apply app_inv_tail in H. apply str_opt_int_inj in H. now subst. }
  split; [exact Hinj|]. split.
  - intros a b H. apply Hinj in H. subst. apply TxData1_equal_iff. auto.
  - exists sample_metadata,
      {| height := Some 5; position := None; fee := Some 120;
         date_added := None; date_updated := None |}.
    split; [reflexivity|]. vm_compute. discriminate.
Qed.

Lemma TxData1_repr_injective_witness :
  TxData1_equal sample_metadata sample_metadata.
Proof.
  apply (proj1 (proj2 TxData1_repr_injective) sample_metadata sample_metadata).
  reflexivity.
Defined.

(** ** What [json.dumps] writes *)

Section Dumps.

Local Open Scope N_scope.

Lemma hex_digit_printable (d : N) : d < 16 -> printable (hex_digit d).
Proof.
  intros Hd. unfold printable, hex_digit, Ch.ZERO.
  destruct (N.ltb_spec d 10); lia.
Qed.

Lemma escape_u_printable (n : N) : Forall printable (escape_u n).
Proof.
  unfold escape_u, hex4.
  repeat constructor; try (unfold printable, Ch.BACKSLASH, Ch.u; lia);
    apply hex_digit_printable; apply N.mod_lt; discriminate.
Qed.

Lemma encode_char_printable (c : N) : Forall printable (encode_char c).
Proof.
  unfold encode_char.
  repeat match goal with
         | |- Forall _ (if (?a =? ?b) then _ else _) => destruct (a =? b)
         end;
    try (repeat constructor;
         cbv [Ch.BACKSLASH Ch.QUOTE Ch.n Ch.r Ch.t Ch.b Ch.f]; lia).
  destruct ((Ch.SPACE <=? c) && (c <=? Ch.TILDE)) eqn:Hp.
  - apply Bool.andb_true_iff in Hp. destruct Hp as [H1 H2].
    apply N.leb_le in H1, H2.
    constructor; [split; [exact H1|exact H2]|constructor].
  - destruct (c <? 65536); [apply escape_u_printable|].
    cbv zeta. apply Forall_app. split; apply escape_u_printable.
Qed.

Lemma encode_basestring_ascii_printable (s : pystr) :
  Forall printable (encode_basestring_ascii s).
Proof.
  unfold encode_basestring_ascii. constructor; [unfold printable, Ch.QUOTE; lia|].
  apply Forall_app. split.
  - induction s as [|c s IH]; [constructor|].
    cbn [flat_map]. apply Forall_app. split;
      [apply encode_char_printable|exact IH].
  - repeat constructor; unfold Ch.QUOTE; lia.
Qed.

Lemma int_repr_printable (z : Z) : Forall printable (int_repr z).
Proof.
  assert (Hu : forall u, Forall printable (uint_chars u)).
  { intros u. eapply Forall_impl; [|apply uint_chars_digits].
    intros c H. unfold is_digit, Ch.ZERO, Ch.NINE in H.
    apply Bool.andb_true_iff in H. destruct H as [H1 H2].
    apply N.leb_le in H1, H2. unfold printable. lia. }
  destruct z; cbn [int_repr]; [|apply Hu|constructor; [|apply Hu]];
    repeat constructor; unfold Ch.ZERO, Ch.MINUS; lia.
Qed.

Lemma sep_printable (first : bool) : Forall printable (sep first).
Proof. destruct first; repeat constructor; cbn; lia. Qed.

Lemma encode_items_printable (xs : list PyVal) :
  Forall (fun x => forall t, json_encode x = Ok t -> Forall printable t) xs ->
  forall first t,
    encode_items json_encode first xs = Ok t -> Forall printable t.
Proof.
  induction 1 as [|x r Hx _ IH]; intros first t H.
  - injection H as <-. constructor.
  - cbn [encode_items] in H. fold (encode_items json_encode) in H.
    destruct (json_encode x) as [|s] eqn:Es; [discriminate|].
    destruct (encode_items json_encode false r) as [|u] eqn:Er; [discriminate|].
    injection H as <-. rewrite !Forall_app.
    repeat split; [apply sep_printable|now apply Hx|now apply (IH false)].
Qed.

Lemma encode_pairs_printable (kvs : list (PyVal * PyVal)) :
  Forall (fun kv => forall t, json_encode (snd kv) = Ok t -> Forall printable t)
         kvs ->
  forall first t,
    encode_pairs json_encode first kvs = Ok t -> Forall printable t.
Proof.
  induction 1 as [|kv r Hx _ IH]; intros first t H.
  - injection H as <-. constructor.
  - cbn [encode_pairs] in H. fold (encode_pairs json_encode) in H.
    destruct (encode_key (fst kv)) as [|ks]; [discriminate|].
    destruct (json_encode (snd kv)) as [|s] eqn:Es; [discriminate|].
    destruct (encode_pairs json_encode false r) as [|u] eqn:Er; [discriminate|].
    assert (Ht : t = sep first ++ encode_basestring_ascii ks
                     ++ lit ": " ++ s ++ u) by (unfold Ok in H; congruence).
    subst t. clear H. rewrite !Forall_app.
    repeat split;
      [apply sep_printable|apply encode_basestring_ascii_printable| | |].
    + repeat constructor; cbn; lia.
    + now apply Hx.
    + now apply (IH false).
Qed.

Lemma json_encode_printable (v : PyVal) :
  forall t, json_encode v = Ok t -> Forall printable t.
Proof.
  induction v as [ |b|n|s|b|xs IH|xs IH|kvs IH] using PyVal_nested_ind;
    intros t H.
  - injection H as <-. repeat constructor; cbn; lia.
  - destruct b; injection H as <-; repeat constructor; cbn; lia.
  - injection H as <-. apply int_repr_printable.
  - injection H as <-. apply encode_basestring_ascii_printable.
  - discriminate.
  - cbn [json_encode] in H.
    destruct (encode_items json_encode true xs) as [|u] eqn:E; [discriminate|].
    injection H as <-. constructor; [unfold printable, Ch.LBRACKET; lia|].
    apply Forall_app. split; [now apply (encode_items_printable xs IH true)|].
    repeat constructor; unfold Ch.RBRACKET; lia.
  - cbn [json_encode] in H.
    destruct (encode_items json_encode true xs) as [|u] eqn:E; [discriminate|].
    injection H as <-. constructor; [unfold printable, Ch.LBRACKET; lia|].
    apply Forall_app. split; [now apply (encode_items_printable xs IH true)|].
    repeat constructor; unfold Ch.RBRACKET; lia.
  - cbn [json_encode] in H.
    destruct (encode_pairs json_encode true kvs) as [|u] eqn:E; [discriminate|].
    injection H as <-. constructor; [unfold printable, Ch.LBRACE; lia|].
    apply Forall_app. split.
    + apply (encode_pairs_printable kvs) with (first := true); [|exact E].
      eapply Forall_impl; [|exact IH]. now intros kv [_ Hv].
    + repeat constructor; unfold Ch.RBRACE; lia.
Qed.

End Dumps.

Lemma for_each_rows {A B} (body : A -> result B) (l : list A) (rows : list B) :
  for_each body l = Ok rows -> Forall2 (fun e row => body e = Ok row) l rows.
Proof.
  revert rows. induction l as [|e l IH]; intros rows H.
  - injection H as <-. constructor.
  - cbn [for_each] in H. destruct (body e) as [|row] eqn:Eb; [discriminate|].
    destruct (for_each body l) as [|rs]; [discriminate|].
    injection H as <-. constructor; [exact Eb|now apply IH].
Qed.

Lemma wallet_data_insert_row_ok (ts : Z) (e : WalletDataRow1) (row : list PyVal) :
  wallet_data_insert_row ts e = Ok row ->
  exists data,
    json_dumps (value e) = Ok data
    /\ is_str (key e) = true
    /\ row = [key e; PyStr data; PyInt ts; PyInt ts].
Proof.
  unfold wallet_data_insert_row, py_assert.
  destruct (is_str (key e)); [|discriminate].
  destruct (json_dumps (value e)) as [|data]; [discriminate|].
  intros H. injection H as <-. eauto.
Qed.

Lemma wallet_data_update_row_ok (ts : Z) (e : WalletDataRow1) (row : list PyVal) :
  wallet_data_update_row ts e = Ok row ->
  exists data,
    json_dumps (value e) = Ok data /\ row = [PyStr data; PyInt ts; key e].
Proof.
  unfold wallet_data_update_row.
  destruct (json_dumps (value e)) as [|data]; [discriminate|].
  intros H. injection H as <-. eauto.
Qed.

(** X4. Whatever the values, the text [create_wallet_datas1] and
    [update_wallet_datas1] post for the [value] column is printable ASCII:
    every character of it lies between the space and the tilde. *)
Theorem wallet_data_text_is_ascii
    (entries : list WalletDataRow1) (w : World) (f : Future) (w1 : World) :
  (create_wallet_datas1 entries w = (Ok f, w1) ->
   exists rows,
     w1 = posted (tick w) {| job_query := INSERT_INTO WalletData;
                             job_datas := rows |}
     /\ Forall (fun row => exists text,
                    nth 1 row PyNone = PyStr text /\ Forall printable text) rows)
  /\ (update_wallet_datas1 entries w = (Ok f, w1) ->
      exists rows,
        w1 = posted (tick w) {| job_query := UPDATE_WalletData;
                                job_datas := rows |}
        /\ Forall (fun row => exists text,
                       nth 0 row PyNone = PyStr text /\ Forall printable text)
                  rows).
Proof.
  split; intros H.
  - rewrite create_wallet_datas1_unfold in H. cbv zeta in H.
    destruct (for_each _ entries) as [|rows] eqn:E; [discriminate|].
    injection H as _ <-. exists rows. split; [reflexivity|].
    apply for_each_rows in E. induction E as [|e row l rs He _ IH]; constructor.
    + apply wallet_data_insert_row_ok in He. destruct He as (data & Hd & _ & ->).
      exists data. split; [reflexivity|]. now apply (json_encode_printable (value e)).
    + exact IH.
  - rewrite update_wallet_datas1_unfold in H. cbv zeta in H.
    destruct (for_each _ entries) as [|rows] eqn:E; [discriminate|].
    injection H as _ <-. exists rows. split; [reflexivity|].
    apply for_each_rows in E. induction E as [|e row l rs He _ IH]; constructor.
    + apply wallet_data_update_row_ok in He. destruct He as (data & Hd & ->).
      exists data. split; [reflexivity|]. now apply (json_encode_printable (value e)).
    + exact IH.
Qed.

Lemma wallet_data_text_is_ascii_witness :
  exists rows,
    snd (create_wallet_datas1 [unicode_entry] (world_at 0 empty_database))
    = posted (tick (world_at 0 empty_database))
        {| job_query := INSERT_INTO WalletData; job_datas := rows |}
    /\ Forall (fun row => exists text,
                   nth 1 row PyNone = PyStr text /\ Forall printable text) rows.
Proof.
  apply (proj1 (wallet_data_text_is_ascii [unicode_entry]
                  (world_at 0 empty_database) {| future_id := 0 |}
                  (snd (create_wallet_datas1 [unicode_entry]
                          (world_at 0 empty_database))))).
  reflexivity.
Defined.

(** ** When [json.dumps] refuses a value *)

Section Serialisable.





End Serialisable.

(** ** Wallet data: what is posted, and when nothing is *)

Section Construction.





End Construction.



(** ** Tuples come back as lists *)

Section Listify.





End Listify.



(** ** What [json.loads] returns *)

Section Shape.









End Shape.



(** ** Updating wallet data *)

Section Updates.












End Updates.

Section UpdateBatches.










Lemma entry_keys_app (a b : list WalletDataRow1) :
  entry_keys (a ++ b) = entry_keys a ++ entry_keys b.
Proof.
  induction a as [|e a IH]; [reflexivity|].
  cbn [app entry_keys]. destruct (key e); rewrite IH; reflexivity.
Qed.



End UpdateBatches.





(** ** Operations posted one after the other *)

Section Composition.








End Composition.





(** ** Transactions: what reaches the table *)

Section StoredTransactions.

Lemma has_flag_testbit (word n : Z) :
  0 <= n -> has_flag word (Z.shiftl 1 n) = Z.testbit word n.
Proof.
  intros Hn. unfold has_flag.
  pose proof (land_single_zero word n Hn) as H.
  destruct (Z.eqb_spec (Z.land word (Z.shiftl 1 n)) 0) as [E|E];
    destruct (Z.testbit word n); cbn [negb]; try reflexivity.
  - apply H in E. discriminate.
  - exfalso. apply E. now apply H.
Qed.

Lemma not_null_or_int (o : option Z) : not_null (null_or_int o) = is_some o.
Proof. destruct o; reflexivity. Qed.

Lemma adapt_opt_int (o : option Z) : adapt (opt_int o) = Ok (null_or_int o).
Proof. destruct o; reflexivity. Qed.

Lemma adapt_opt_str (o : option pystr) : adapt (opt_str o) = Ok (null_or_text o).
Proof. destruct o; reflexivity. Qed.

(** The row of an accepted entry, as [sqlite3] binds it. *)
Lemma adapt_stored_row (e : TransactionRow1) :
  entry_ok e = true ->
  exists h b a u,
    tx_hash e = PyBytes h /\ tx_bytes e = Some b
    /\ date_added (tx_data e) = Some a /\ date_updated (tx_data e) = Some u
    /\ adapt_all (stored_row e) =
         Ok [SqlBlob h; SqlBlob b;
             SqlInt (reconcile_flags (flags e) (tx_data e));
             null_or_int (height (tx_data e));
             null_or_int (position (tx_data e));
             null_or_int (fee (tx_data e));
             null_or_text (description e);
             null_or_int (version e); null_or_int (locktime e);
             SqlInt a; SqlInt u].
Proof.
  unfold entry_ok. rewrite !Bool.andb_true_iff. intros [[[[Hh Hb] _] Ha] Hu].
  unfold stored_row.
  destruct (tx_hash e) as [ | | | |h| | | ]; try discriminate.
  destruct (tx_bytes e) as [b|]; [|discriminate].
  destruct (date_added (tx_data e)) as [a|]; [|discriminate].
  destruct (date_updated (tx_data e)) as [u|]; [|discriminate].
  exists h, b, a, u. repeat (split; [reflexivity|]).
  cbn [adapt_all opt_bytes]. rewrite !adapt_opt_int, adapt_opt_str.
  reflexivity.
Qed.

Lemma stored_row_coherent (e : TransactionRow1) (row : Row) :
  entry_ok e = true -> adapt_all (stored_row e) = Ok row -> coherent_row row.
Proof.
  intros Hok Hrow.
  destruct (adapt_stored_row e Hok) as (h & b & a & u & _ & _ & _ & _ & Hr).
  rewrite Hr in Hrow. unfold Ok in Hrow. injection Hrow as <-.
  unfold coherent_row. cbn [List.length nth].
  split; [reflexivity|]. split; [now exists h, b|]. split; [|now exists a, u].
  eexists. split; [reflexivity|].
  unfold TxFlags1.HasHeight, TxFlags1.HasPosition, TxFlags1.HasFee,
    TxFlags1.HasByteData.
  rewrite !has_flag_testbit, !reconcile_flags_testbit, !not_null_or_int by lia.
  cbn [Z.eqb Pos.eqb].
  repeat (split; [reflexivity|]).
  unfold entry_ok in Hok. rewrite !Bool.andb_true_iff in Hok.
  destruct Hok as [[[_ Hf] _] _]. apply Z.eqb_eq in Hf.
  now apply (land_single_zero (flags e) 12).
Qed.

Lemma transaction_rows_accepted (entries : list TransactionRow1)
    (datas : list (list PyVal)) :
  for_each transaction_row entries = Ok datas ->
  Forall2 (fun e params => entry_ok e = true /\ params = stored_row e)
          entries datas.
Proof.
  intros H. apply for_each_rows in H.
  induction H as [|e row entries datas He _ IH]; constructor; [|exact IH].
  destruct (entry_ok e) eqn:Eok.
  - rewrite (transaction_row_ok e Eok) in He. unfold Ok in He.
    injection He as <-. now split.
  - destruct (transaction_row_bad e Eok) as [msg Hm].
    rewrite Hm in He. discriminate.
Qed.

End StoredTransactions.

(** X12. [create_transactions1] reads no clock, and the operation it posts,
    whenever the writer runs it with success, appends to the [Transactions]
    table one row per entry, each with its flags and its columns in
    agreement: [HasHeight], [HasPosition] and [HasFee] are set exactly when
    [block_height], [block_position] and [fee_value] are not [NULL],
    [HasByteData] is clear, the hash and the data are blobs, and neither date
    is [NULL]. *)
Theorem create_transactions1_stored_rows
    (entries : list TransactionRow1) (w w1 : World) (f : Future) :
  create_transactions1 entries w = (Ok f, w1) ->
  clock w1 = clock w
  /\ exists j : Job,
       w1 = posted w j
       /\ forall db db' : Database,
            run_job db j = Ok db' ->
            exists rows : list Row,
              tblTransactions db' = tblTransactions db ++ rows
              /\ List.length rows = List.length entries
              /\ Forall coherent_row rows.
Proof.
  rewrite create_transactions1_unfold.
  destruct (for_each transaction_row entries) as [|datas] eqn:E;
    [discriminate|].
  intros H. unfold Ok in H. injection H as _ <-.
  split; [reflexivity|]. eexists. split; [reflexivity|].
  intros db db' Hrun. unfold run_job in Hrun. cbn [job_query job_datas] in Hrun.
  destruct (executemany_insert _ _ _ _ Hrun) as (rows & Hrows & Hget).
  exists rows. split; [exact Hget|].
  apply transaction_rows_accepted in E. clear - E Hrows.
  revert rows Hrows.
  induction E as [|e params entries datas [Hok ->] _ IH]; intros rows Hrows;
    inversion Hrows as [|? row ? rows' Hrow Hrest]; subst.
  - split; [reflexivity|constructor].
  - destruct (IH _ Hrest) as [Hlen Hall]. split.
    + cbn [List.length]. now rewrite Hlen.
    + constructor; [|exact Hall]. exact (stored_row_coherent e row Hok Hrow).
Qed.

Lemma create_transactions1_stored_rows_witness :
  clock (snd (create_transactions1 [sample_entry] (world_at 1600000000 sample_store)))
    = clock (world_at 1600000000 sample_store)
  /\ exists j : Job,
       snd (create_transactions1 [sample_entry] (world_at 1600000000 sample_store))
         = posted (world_at 1600000000 sample_store) j
       /\ forall db db' : Database,
            run_job db j = Ok db' ->
            exists rows : list Row,
              tblTransactions db' = tblTransactions db ++ rows
              /\ List.length rows = List.length [sample_entry]
              /\ Forall coherent_row rows.
Proof.
  exact (create_transactions1_stored_rows [sample_entry]
           (world_at 1600000000 sample_store)
           (snd (create_transactions1 [sample_entry]
                   (world_at 1600000000 sample_store)))
           {| future_id := 0 |} eq_refl).
Defined.

(** ** Statements and their parameter rows *)

Section Placeholders.






End Placeholders.



(** X14. Called on an empty batch, each of the eight functions still reads
    its clock and posts one operation; the writer completes it with success
    and leaves the store as it was. *)
Theorem empty_batches :
  posts_empty_batch create_accounts1
  /\ posts_empty_batch create_keys1
  /\ posts_empty_batch create_master_keys1
  /\ posts_empty_batch create_payment_requests1
  /\ posts_empty_batch create_transaction_outputs1
  /\ posts_empty_batch create_transactions1
  /\ posts_empty_batch create_wallet_datas1
  /\ posts_empty_batch update_wallet_datas1.
Proof.
  unfold posts_empty_batch.
  repeat apply conj; intros c db; eexists _, _;
    (split; [cbv; reflexivity|]); repeat apply conj; reflexivity.
Qed.
